(** * Beam load calculator: reactions, extrema, section properties, curves

    A shallow embedding of the computational kernel of
    [src/components/beam-load-calculator.tsx]: the two callbacks
    [calculateResults] (lines 330-475) and [calculateDiagrams]
    (lines 477-575).

    The kernel is written once, over an interface [JSNumber] of the
    operations it applies to JavaScript numbers.  The interface has two
    instances:
    - [float] (IEEE 754 binary64, Rocq's primitive floats): what the
      program runs on, with NaN, the infinities and rounding;
    - [option Q]: the same operations in exact rational arithmetic, where
      [None] stands for a value that is not a finite number.  It is used
      only where a statement is about the formulas up to rounding. *)

From Stdlib Require Import ZArith QArith Qround Qabs Qpower Qfield Lqa List Bool Lia Floats.
Import ListNotations.

Set Implicit Arguments.

(** ** Exceptions

    The only operation of the kernel that can throw is
    [Number.prototype.toFixed], with a [RangeError] when the number of
    digits is not within 0..100. *)

Inductive exn := RangeError.

Inductive result (A : Type) :=
| Ok (a : A)
| Throw (e : exn).
Arguments Ok {A} a.
Arguments Throw {A} e.

Definition bind {A B} (r : result A) (k : A -> result B) : result B :=
  match r with
  | Ok a => k a
  | Throw e => Throw e
  end.

Notation "'let*' x ':=' r 'in' k" := (bind r (fun x => k))
  (at level 10, x name, r at level 100, k at level 200).

Fixpoint mapM {A B} (f : A -> result B) (l : list A) : result (list B) :=
  match l with
  | [] => Ok []
  | a :: l' =>
      let* b := f a in
      let* bs := mapM f l' in
      Ok (b :: bs)
  end.

(** ** The number interface *)

Class JSNumber (num : Type) := {
  (** an integer literal, or an integer loop counter used as a number *)
  lit : Z -> num;
  (** a decimal literal [m]e-[k], such as 1.5 or 9.81 *)
  decimal : Z -> nat -> num;
  (** what [undefined] becomes under an arithmetic operator *)
  undefined_num : num;
  num_add : num -> num -> num;
  num_sub : num -> num -> num;
  num_mul : num -> num -> num;
  num_div : num -> num -> num;
  num_neg : num -> num;
  num_ltb : num -> num -> bool;
  num_leb : num -> num -> bool;
  Math_abs : num -> num;
  Math_max : num -> num -> num;
  Math_min : num -> num -> num;
  (** [Math.pow] at an integer exponent *)
  Math_pow : num -> Z -> num;
  Math_PI : num;
  (** [Number(x.toFixed(d))] for [d] within 0..100 *)
  Number_toFixed : num -> Z -> num
}.

Declare Scope js_scope.
Delimit Scope js_scope with js.
Infix "+" := num_add : js_scope.
Infix "-" := num_sub : js_scope.
Infix "*" := num_mul : js_scope.
Infix "/" := num_div : js_scope.
Notation "- x" := (num_neg x) : js_scope.
Notation "x <? y" := (num_ltb x y) : js_scope.
Notation "x <=? y" := (num_leb x y) : js_scope.
Notation "x >? y" := (num_ltb y x) : js_scope.
Notation "x >=? y" := (num_leb y x) : js_scope.

(** [x.toFixed(d)] read back with [Number]. *)
Definition toFixed {num} `{JSNumber num} (x : num) (d : Z) : result num :=
  if ((0 <=? d) && (d <=? 100))%Z then Ok (Number_toFixed x d)
  else Throw RangeError.

(** ** Binary64 *)

Module Binary64.

Open Scope float_scope.

(** The double nearest to the rational [n / p] (round to nearest, ties to
    even): the value [Number] gives to a decimal numeral. *)
Definition ratio (n : Z) (p : positive) : float :=
  match n with
  | Z0 => 0
  | Zpos a => SF2Prim (SF64div (S754_finite false a 0) (S754_finite false p 0))
  | Zneg a => SF2Prim (SF64div (S754_finite true a 0) (S754_finite false p 0))
  end.

Definition of_Z (z : Z) : float := ratio z 1.

(** [Math.max(a, b)]: NaN if either is NaN, and +0 is larger than -0. *)
Definition max (a b : float) : float :=
  if is_nan a || is_nan b then nan
  else if a <? b then b
  else if b <? a then a
  else if get_sign a then b else a.

(** [Math.min(a, b)]: NaN if either is NaN, and -0 is smaller than +0. *)
Definition min (a b : float) : float :=
  if is_nan a || is_nan b then nan
  else if a <? b then a
  else if b <? a then b
  else if get_sign a then a else b.

(** [Math.pow] at the exponents the program uses (2, 3 and 4), by repeated
    multiplication.  ECMAScript leaves the rounding of [Math.pow] to the
    implementation; on NaN, zeros and infinities the product agrees with
    the values it prescribes. *)
Definition pow (x : float) (n : Z) : float :=
  match n with
  | Zpos p => Pos.iter_op PrimFloat.mul p x
  | Z0 => 1
  | Zneg p => 1 / Pos.iter_op PrimFloat.mul p x
  end.

(** The integer [n] for which [n / 10^d - m * 2^e] is as close to zero as
    possible, the larger one when there are two. *)
Definition scaled_round (m : positive) (e : Z) (d : Z) : Z :=
  match e with
  | Zneg k => (2 * (Zpos m * 10 ^ d) + 2 ^ Zpos k) / (2 * 2 ^ Zpos k)
  | _ => Zpos m * 2 ^ e * 10 ^ d
  end.

(** [Number(x.toFixed(d))].  [toFixed] prints NaN and the infinities by
    name; otherwise it takes the sign off, rounds the exact value of [x]
    to [d] decimals and prints the digits, which [Number] reads back as the
    nearest double.  (From 1e21 on [toFixed] prints [x] in full, and the
    value read back is [x], as it is here.) *)
Definition toFixed (x : float) (d : Z) : float :=
  match Prim2SF x with
  | S754_nan => x
  | S754_infinity _ => x
  | S754_zero _ => 0
  | S754_finite s m e =>
      let n := scaled_round m e d in
      let r := ratio n (Z.to_pos (10 ^ d)) in
      if s then - r else r
  end.

#[export] Instance number : JSNumber float := {
  lit := of_Z;
  decimal m k := ratio m (Z.to_pos (10 ^ Z.of_nat k));
  undefined_num := nan;
  num_add := PrimFloat.add;
  num_sub := PrimFloat.sub;
  num_mul := PrimFloat.mul;
  num_div := PrimFloat.div;
  num_neg := PrimFloat.opp;
  num_ltb := PrimFloat.ltb;
  num_leb := PrimFloat.leb;
  Math_abs := PrimFloat.abs;
  Math_max := max;
  Math_min := min;
  Math_pow := pow;
  Math_PI := 0x1.921fb54442d18p+1;
  Number_toFixed := toFixed
}.

End Binary64.

(** ** Exact rational arithmetic

    The same operations without rounding.  [None] is a value that is not
    a finite number: the quotient by zero, and [undefined] as an operand. *)

Module Exact.

Open Scope Q_scope.

Definition lift1 (f : Q -> Q) (a : option Q) : option Q :=
  match a with
  | Some p => Some (f p)
  | None => None
  end.

Definition lift2 (f : Q -> Q -> Q) (a b : option Q) : option Q :=
  match a, b with
  | Some p, Some q => Some (f p q)
  | _, _ => None
  end.

Definition test2 (f : Q -> Q -> bool) (a b : option Q) : bool :=
  match a, b with
  | Some p, Some q => f p q
  | _, _ => false
  end.

Definition div (a b : option Q) : option Q :=
  match a, b with
  | Some p, Some q => if Qeq_bool q 0 then None else Some (p / q)
  | _, _ => None
  end.

Definition pow (a : option Q) (n : Z) : option Q :=
  match a with
  | Some p => if Qeq_bool p 0 && (n <? 0)%Z then None else Some (p ^ n)
  | None => None
  end.

(** Round half away from zero to [d] decimals. *)
Definition toFixed (a : option Q) (d : Z) : option Q :=
  match a with
  | Some p =>
      let n := Qfloor (Qabs p * inject_Z (10 ^ d) + (1 # 2)) in
      Some (inject_Z (if Qle_bool 0 p then n else (- n)%Z) / inject_Z (10 ^ d))
  | None => None
  end.

#[export] Instance number : JSNumber (option Q) := {
  lit z := Some (inject_Z z);
  decimal m k := Some (inject_Z m / inject_Z (10 ^ Z.of_nat k));
  undefined_num := None;
  num_add := lift2 Qplus;
  num_sub := lift2 Qminus;
  num_mul := lift2 Qmult;
  num_div := div;
  num_neg := lift1 Qopp;
  num_ltb := test2 (fun p q => negb (Qle_bool q p));
  num_leb := test2 Qle_bool;
  Math_abs := lift1 Qabs;
  Math_max := lift2 (fun p q => if Qle_bool p q then q else p);
  Math_min := lift2 (fun p q => if Qle_bool p q then p else q);
  Math_pow := pow;
  (** the rational that the double [Math.PI] is *)
  Math_PI := Some (7074237752028440 # 2251799813685248);
  Number_toFixed := toFixed
}.

(** Two values are the same number. *)
Definition same (a b : option Q) : Prop :=
  match a, b with
  | Some p, Some q => p == q
  | None, None => True
  | _, _ => False
  end.

End Exact.

(** ** Data model

    [beamType] and [beamCrossSection] are strings set from two selects, with
    the values 'Simple Beam' and 'Cantilever Beam', and 'Rectangular',
    'I Beam', 'C Channel' and 'Circular'; a load's [type] is 'Point Load' or
    'Uniform Load'.  The [default] branches of the two [switch] statements
    repeat the 'Rectangular' case and are never taken. *)

Inductive BeamType := SimpleBeam | CantileverBeam.

Inductive CrossSection := Rectangular | IBeam | CChannel | Circular.

Inductive LoadType := PointLoad | UniformLoad.

(** The keys of [standardMaterials]. *)
Inductive MaterialName :=
| ASTM_A36_Structural_Steel
| ASTM_A992_Structural_Steel
| ASTM_A572_Grade_50_Steel
| Custom.

Section Kernel.

Context {num : Type} `{JSNumber num}.

Local Open Scope js_scope.

Record MaterialProps := {
  yieldStrength : num;
  elasticModulus : num;
  density : num;
  poissonsRatio : num;
  thermalExpansion : num
}.

Definition standardMaterials (m : MaterialName) : MaterialProps :=
  match m with
  | ASTM_A36_Structural_Steel =>
      {| yieldStrength := lit 250; elasticModulus := lit 200; density := lit 7850;
         poissonsRatio := decimal 3 1; thermalExpansion := lit 12 |}
  | ASTM_A992_Structural_Steel =>
      {| yieldStrength := lit 345; elasticModulus := lit 200; density := lit 7850;
         poissonsRatio := decimal 3 1; thermalExpansion := lit 12 |}
  | ASTM_A572_Grade_50_Steel =>
      {| yieldStrength := lit 345; elasticModulus := lit 200; density := lit 7850;
         poissonsRatio := decimal 3 1; thermalExpansion := lit 12 |}
  | Custom =>
      {| yieldStrength := lit 0; elasticModulus := lit 0; density := lit 0;
         poissonsRatio := lit 0; thermalExpansion := lit 0 |}
  end.

Record CustomMaterial := {
  customYieldStrength : num;
  customElasticModulus : num;
  customDensity : num
}.

(** [endPosition] is optional ([endPosition?: number]). *)
Record Load := {
  type : LoadType;
  magnitude : num;
  startPosition : num;
  endPosition : option num
}.

(** [load.endPosition!]: the assertion is erased at run time, and an absent
    field reads as [undefined]. *)
Definition endPosition_ (load : Load) : num :=
  match endPosition load with
  | Some e => e
  | None => undefined_num
  end.

(** The component state the two callbacks read. *)
Record State := {
  beamType : BeamType;
  beamCrossSection : CrossSection;
  beamLength : num;
  leftSupport : num;
  rightSupport : num;
  loads : list Load;
  material : MaterialName;
  customMaterial : CustomMaterial;
  width : num;
  height : num;
  flangeWidth : num;
  flangeThickness : num;
  webThickness : num;
  diameter : num;
  beamDensity : num
}.

Record Results := {
  maxShearForce : num;
  maxBendingMoment : num;
  maxNormalStress : num;
  maxShearStress : num;
  safetyFactor : num;
  centerOfGravity : num;
  momentOfInertia : num;
  sectionModulus : num
}.

(** ** [calculateResults] *)

Section CalculateResults.

Variable s : State.

(** Convert mm to m for calculations (lines 332-340). *)
Definition beamLengthM := beamLength s / lit 1000.
Definition leftSupportM := leftSupport s / lit 1000.
Definition rightSupportM := rightSupport s / lit 1000.
Definition widthM := width s / lit 1000.
Definition heightM := height s / lit 1000.
Definition flangeWidthM := flangeWidth s / lit 1000.
Definition flangeThicknessM := flangeThickness s / lit 1000.
Definition webThicknessM := webThickness s / lit 1000.
Definition diameterM := diameter s / lit 1000.

(** Beam weight (lines 343-361). *)
Definition beamVolume : num :=
  match beamCrossSection s with
  | Rectangular => widthM * heightM * beamLengthM
  | IBeam =>
      (lit 2 * flangeWidthM * flangeThicknessM
       + (heightM - lit 2 * flangeThicknessM) * webThicknessM) * beamLengthM
  | CChannel =>
      (lit 2 * flangeWidthM * flangeThicknessM
       + (heightM - lit 2 * flangeThicknessM) * webThicknessM) * beamLengthM
  | Circular => Math_PI * Math_pow (diameterM / lit 2) 2 * beamLengthM
  end.

Definition beamWeightN : num := beamVolume * beamDensity s * decimal 981 2.

(** Reaction forces (lines 364-391): one pass over the loads, updating
    [R1] and [R2]. *)
Definition simpleReactionStep (R : num * num) (load : Load) : num * num :=
  let '(R1, R2) := R in
  let loadStartPositionM := startPosition load / lit 1000 in
  match type load with
  | PointLoad =>
      (R1 + magnitude load * (rightSupportM - loadStartPositionM) / (rightSupportM - leftSupportM),
       R2 + magnitude load * (loadStartPositionM - leftSupportM) / (rightSupportM - leftSupportM))
  | UniformLoad =>
      let loadEndPositionM := endPosition_ load / lit 1000 in
      let loadLengthM := loadEndPositionM - loadStartPositionM in
      let totalLoad := magnitude load * loadLengthM in
      let loadCentroidM := (loadStartPositionM + loadEndPositionM) / lit 2 in
      (R1 + totalLoad * (rightSupportM - loadCentroidM) / (rightSupportM - leftSupportM),
       R2 + totalLoad * (loadCentroidM - leftSupportM) / (rightSupportM - leftSupportM))
  end.

Definition cantileverReactionStep (R : num * num) (load : Load) : num * num :=
  let '(R1, R2) := R in
  match type load with
  | PointLoad => (R1 + magnitude load, R2)
  | UniformLoad =>
      let loadLengthM := (endPosition_ load - startPosition load) / lit 1000 in
      (R1 + magnitude load * loadLengthM, R2)
  end.

Definition reactions : num * num :=
  match beamType s with
  | SimpleBeam => fold_left simpleReactionStep (loads s) (lit 0, lit 0)
  | CantileverBeam => fold_left cantileverReactionStep (loads s) (lit 0, lit 0)
  end.

Definition R1 : num := fst reactions.
Definition R2 : num := snd reactions.

(** Maximum shear force and bending moment (lines 394-424). *)
Definition maxShearForce_ : num := Math_max (Math_abs R1) (Math_abs R2).

Definition momentAtLoad (load : Load) : num :=
  let loadStartPositionM := startPosition load / lit 1000 in
  R1 * (loadStartPositionM - leftSupportM).

Definition momentAtStart (load : Load) : num :=
  let loadStartPositionM := startPosition load / lit 1000 in
  let loadEndPositionM := endPosition_ load / lit 1000 in
  let loadLengthM := loadEndPositionM - loadStartPositionM in
  (R1 * (loadStartPositionM - leftSupportM))
  - (magnitude load * loadLengthM
     * (loadStartPositionM - leftSupportM + loadLengthM / lit 2) / lit 2).

Definition momentAtEnd (load : Load) : num :=
  let loadStartPositionM := startPosition load / lit 1000 in
  let loadEndPositionM := endPosition_ load / lit 1000 in
  let loadLengthM := loadEndPositionM - loadStartPositionM in
  (R1 * (loadEndPositionM - leftSupportM))
  - (magnitude load * loadLengthM
     * (loadEndPositionM - leftSupportM - loadLengthM / lit 2) / lit 2).

Definition simpleMomentStep (maxBendingMoment : num) (load : Load) : num :=
  match type load with
  | PointLoad => Math_max maxBendingMoment (momentAtLoad load)
  | UniformLoad =>
      Math_max (Math_max maxBendingMoment (momentAtStart load)) (momentAtEnd load)
  end.

Definition momentAtFixed (load : Load) : num :=
  match type load with
  | PointLoad => magnitude load * (beamLengthM - startPosition load / lit 1000)
  | UniformLoad =>
      let loadLengthM := (endPosition_ load - startPosition load) / lit 1000 in
      magnitude load * loadLengthM
      * (beamLengthM
         - (startPosition load / lit 1000 + endPosition_ load / lit 1000) / lit 2)
  end.

Definition cantileverMomentStep (maxBendingMoment : num) (load : Load) : num :=
  Math_max maxBendingMoment (momentAtFixed load).

Definition maxBendingMoment_ : num :=
  match beamType s with
  | SimpleBeam => fold_left simpleMomentStep (loads s) (lit 0)
  | CantileverBeam => fold_left cantileverMomentStep (loads s) (lit 0)
  end.

(** Cross-sectional properties (lines 427-459). *)
Definition materialProps_yieldStrength : num :=
  match material s with
  | Custom => customYieldStrength (customMaterial s)
  | m => yieldStrength (standardMaterials m)
  end.

Definition area : num :=
  match beamCrossSection s with
  | Rectangular => widthM * heightM
  | IBeam =>
      lit 2 * flangeWidthM * flangeThicknessM
      + (heightM - lit 2 * flangeThicknessM) * webThicknessM
  | CChannel =>
      lit 2 * flangeWidthM * flangeThicknessM
      + (heightM - lit 2 * flangeThicknessM) * webThicknessM
  | Circular => Math_PI * Math_pow (diameterM / lit 2) 2
  end.

Definition I_flange : num :=
  (flangeWidthM * Math_pow flangeThicknessM 3) / lit 6
  + lit 2 * flangeWidthM * flangeThicknessM
    * Math_pow ((heightM - flangeThicknessM) / lit 2) 2.

Definition I_web : num :=
  (webThicknessM * Math_pow (heightM - lit 2 * flangeThicknessM) 3) / lit 12.

Definition I_flange_c : num :=
  (flangeWidthM * Math_pow flangeThicknessM 3) / lit 12
  + flangeWidthM * flangeThicknessM
    * Math_pow ((heightM - flangeThicknessM) / lit 2) 2.

Definition I_web_c : num :=
  (webThicknessM * Math_pow (heightM - lit 2 * flangeThicknessM) 3) / lit 12.

Definition momentOfInertia_ : num :=
  match beamCrossSection s with
  | Rectangular => (widthM * Math_pow heightM 3) / lit 12
  | IBeam => lit 2 * I_flange + I_web
  | CChannel => lit 2 * I_flange_c + I_web_c
  | Circular => (Math_PI * Math_pow diameterM 4) / lit 64
  end.

Definition sectionModulus_ : num :=
  match beamCrossSection s with
  | Rectangular => momentOfInertia_ / (heightM / lit 2)
  | IBeam => momentOfInertia_ / (heightM / lit 2)
  | CChannel => momentOfInertia_ / (heightM / lit 2)
  | Circular => momentOfInertia_ / (diameterM / lit 2)
  end.

(** Stresses (lines 462-463), in MPa. *)
Definition maxNormalStress_ : num := (maxBendingMoment_ / sectionModulus_) / lit 1000000.
Definition maxShearStress_ : num := (decimal 15 1 * maxShearForce_ / area) / lit 1000000.

(** The callback: [setBeamWeight] then [setResults] (lines 361, 465-474). *)
Definition calculateResults : result (num * Results) :=
  let* beamWeight := toFixed beamWeightN 2 in
  let* r_maxShearForce := toFixed maxShearForce_ 2 in
  let* r_maxBendingMoment := toFixed maxBendingMoment_ 2 in
  let* r_maxNormalStress := toFixed maxNormalStress_ 2 in
  let* r_maxShearStress := toFixed maxShearStress_ 2 in
  let* r_safetyFactor := toFixed (materialProps_yieldStrength / maxNormalStress_) 2 in
  let* r_centerOfGravity := toFixed (beamLengthM / lit 2) 3 in
  let* r_momentOfInertia := toFixed momentOfInertia_ 6 in
  let* r_sectionModulus := toFixed sectionModulus_ 6 in
  Ok (beamWeight,
      {| maxShearForce := r_maxShearForce;
         maxBendingMoment := r_maxBendingMoment;
         maxNormalStress := r_maxNormalStress;
         maxShearStress := r_maxShearStress;
         safetyFactor := r_safetyFactor;
         centerOfGravity := r_centerOfGravity;
         momentOfInertia := r_momentOfInertia;
         sectionModulus := r_sectionModulus |}).

End CalculateResults.

(** ** [calculateDiagrams] *)

Record Point := { x : num; y : num }.

Section CalculateDiagrams.

Variable s : State.

Definition numPoints : nat := 100.

Definition dx : num := beamLength s / (lit (Z.of_nat numPoints) - lit 1).

(** Reaction forces (lines 484-509), here on the positions in mm. *)
Definition diagramSimpleReactionStep (R : num * num) (load : Load) : num * num :=
  let '(R1, R2) := R in
  match type load with
  | PointLoad =>
      (R1 + magnitude load * (rightSupport s - startPosition load) / (rightSupport s - leftSupport s),
       R2 + magnitude load * (startPosition load - leftSupport s) / (rightSupport s - leftSupport s))
  | UniformLoad =>
      let loadLength := endPosition_ load - startPosition load in
      let totalLoad := magnitude load * loadLength in
      let loadCentroid := (startPosition load + endPosition_ load) / lit 2 in
      (R1 + totalLoad * (rightSupport s - loadCentroid) / (rightSupport s - leftSupport s),
       R2 + totalLoad * (loadCentroid - leftSupport s) / (rightSupport s - leftSupport s))
  end.

Definition diagramCantileverReactionStep (R : num * num) (load : Load) : num * num :=
  let '(R1, R2) := R in
  match type load with
  | PointLoad => (R1 + magnitude load, R2)
  | UniformLoad =>
      let loadLength := endPosition_ load - startPosition load in
      (R1 + magnitude load * loadLength, R2)
  end.

Definition diagramReactions : num * num :=
  match beamType s with
  | SimpleBeam => fold_left diagramSimpleReactionStep (loads s) (lit 0, lit 0)
  | CantileverBeam => fold_left diagramCantileverReactionStep (loads s) (lit 0, lit 0)
  end.

(** Simple beam, shear (lines 518-528). *)
Definition simpleShearStep (x : num) (shear : num) (load : Load) : num :=
  match type load with
  | PointLoad =>
      if x >=? startPosition load then shear - magnitude load else shear
  | UniformLoad =>
      if x >=? startPosition load then
        let loadedLength :=
          Math_min (x - startPosition load) (endPosition_ load - startPosition load) in
        shear - magnitude load * loadedLength
      else shear
  end.

Definition simpleShear (x : num) : num :=
  let '(R1, R2) := diagramReactions in
  let shear := lit 0 in
  let shear := if x >=? leftSupport s then shear + R1 else shear in
  let shear := if x >=? rightSupport s then shear - R2 else shear in
  fold_left (simpleShearStep x) (loads s) shear.

(** Simple beam, moment (lines 530-541). *)
Definition simpleMomentLoadStep (x : num) (moment : num) (load : Load) : num :=
  match type load with
  | PointLoad =>
      if x >? startPosition load
      then moment - magnitude load * (x - startPosition load)
      else moment
  | UniformLoad =>
      if x >? startPosition load then
        let loadedLength :=
          Math_min (x - startPosition load) (endPosition_ load - startPosition load) in
        let loadCentroid := startPosition load + loadedLength / lit 2 in
        moment - magnitude load * loadedLength * (x - loadCentroid)
      else moment
  end.

Definition simpleMoment (x : num) : num :=
  let '(R1, R2) := diagramReactions in
  let moment := R1 * (x - leftSupport s) in
  let moment := if x >? rightSupport s then moment - R2 * (x - rightSupport s) else moment in
  fold_left (simpleMomentLoadStep x) (loads s) moment.

(** Cantilever beam (lines 543-566): each load assigns both variables. *)
Definition cantileverStep (x : num) (sm : num * num) (load : Load) : num * num :=
  match type load with
  | PointLoad =>
      if x <=? startPosition load
      then (- magnitude load,
            - magnitude load * (beamLength s - startPosition load))
      else (lit 0, lit 0)
  | UniformLoad =>
      let loadLength := endPosition_ load - startPosition load in
      if x <=? startPosition load then
        (- magnitude load * loadLength,
         - magnitude load * loadLength
           * (beamLength s - (startPosition load + endPosition_ load) / lit 2))
      else if (x >? startPosition load) && (x <? endPosition_ load) then
        let remainingLength := endPosition_ load - x in
        (- magnitude load * remainingLength,
         - magnitude load * remainingLength * remainingLength / lit 2)
      else (lit 0, lit 0)
  end.

(** The values of [shear] and [moment] when the loop body reaches the two
    [push] calls. *)
Definition shearAndMoment (x : num) : num * num :=
  match beamType s with
  | SimpleBeam => (simpleShear x, simpleMoment x)
  | CantileverBeam => fold_left (cantileverStep x) (loads s) (lit 0, lit 0)
  end.

(** The position of sample [i], as stored in both curves. *)
Definition sampleX (i : nat) : num := Number_toFixed (lit (Z.of_nat i) * dx) 2.

(** The two points of sample [i]. *)
Definition sampleShear (i : nat) : Point :=
  {| x := sampleX i;
     y := Number_toFixed (fst (shearAndMoment (lit (Z.of_nat i) * dx))) 2 |}.

Definition sampleMoment (i : nat) : Point :=
  {| x := sampleX i;
     y := Number_toFixed (snd (shearAndMoment (lit (Z.of_nat i) * dx))) 2 |}.

(** One iteration of the loop: the two points pushed. *)
Definition samplePoint (i : nat) : result (Point * Point) :=
  let x := lit (Z.of_nat i) * dx in
  let '(shear, moment) := shearAndMoment x in
  let* sx := toFixed x 2 in
  let* sy := toFixed shear 2 in
  let* mx := toFixed x 2 in
  let* my := toFixed moment 2 in
  Ok ({| x := sx; y := sy |}, {| x := mx; y := my |}).

(** The callback: [shearForceData] and [bendingMomentData]. *)
Definition calculateDiagrams : result (list Point * list Point) :=
  let* samples := mapM samplePoint (seq 0 numPoints) in
  Ok (map fst samples, map snd samples).

End CalculateDiagrams.

(** ** Definitions used by the statements *)

(** The state with another list of loads. *)
Definition setLoads (s : State) (l : list Load) : State :=
  {| beamType := beamType s; beamCrossSection := beamCrossSection s;
     beamLength := beamLength s; leftSupport := leftSupport s;
     rightSupport := rightSupport s; loads := l; material := material s;
     customMaterial := customMaterial s; width := width s; height := height s;
     flangeWidth := flangeWidth s; flangeThickness := flangeThickness s;
     webThickness := webThickness s; diameter := diameter s;
     beamDensity := beamDensity s |}.

Definition setBeamType (s : State) (t : BeamType) : State :=
  {| beamType := t; beamCrossSection := beamCrossSection s;
     beamLength := beamLength s; leftSupport := leftSupport s;
     rightSupport := rightSupport s; loads := loads s; material := material s;
     customMaterial := customMaterial s; width := width s; height := height s;
     flangeWidth := flangeWidth s; flangeThickness := flangeThickness s;
     webThickness := webThickness s; diameter := diameter s;
     beamDensity := beamDensity s |}.

Definition setBeamCrossSection (s : State) (c : CrossSection) : State :=
  {| beamType := beamType s; beamCrossSection := c;
     beamLength := beamLength s; leftSupport := leftSupport s;
     rightSupport := rightSupport s; loads := loads s; material := material s;
     customMaterial := customMaterial s; width := width s; height := height s;
     flangeWidth := flangeWidth s; flangeThickness := flangeThickness s;
     webThickness := webThickness s; diameter := diameter s;
     beamDensity := beamDensity s |}.

Definition setMaterial (s : State) (m : MaterialName) : State :=
  {| beamType := beamType s; beamCrossSection := beamCrossSection s;
     beamLength := beamLength s; leftSupport := leftSupport s;
     rightSupport := rightSupport s; loads := loads s; material := m;
     customMaterial := customMaterial s; width := width s; height := height s;
     flangeWidth := flangeWidth s; flangeThickness := flangeThickness s;
     webThickness := webThickness s; diameter := diameter s;
     beamDensity := beamDensity s |}.

Definition setBeamDensity (s : State) (d : num) : State :=
  {| beamType := beamType s; beamCrossSection := beamCrossSection s;
     beamLength := beamLength s; leftSupport := leftSupport s;
     rightSupport := rightSupport s; loads := loads s; material := material s;
     customMaterial := customMaterial s; width := width s; height := height s;
     flangeWidth := flangeWidth s; flangeThickness := flangeThickness s;
     webThickness := webThickness s; diameter := diameter s;
     beamDensity := d |}.

(** The candidate moments a load contributes to [maxBendingMoment]. *)
Definition momentCandidates (s : State) (load : Load) : list num :=
  match beamType s, type load with
  | SimpleBeam, PointLoad => [momentAtLoad s load]
  | SimpleBeam, UniformLoad => [momentAtStart s load; momentAtEnd s load]
  | CantileverBeam, _ => [momentAtFixed s load]
  end.

(** The largest element of a list, when it has one. *)
Definition max_of (l : list num) : option num :=
  match l with
  | [] => None
  | c :: cs => Some (fold_left Math_max cs c)
  end.

Section SpecMoment.

Variable s : State.

(** What a load applied left of [x] takes off the moment at [x] (in m):
    a point load its magnitude times the distance, a uniform load the load
    on the stretch left of [x] times the distance to that stretch's middle. *)
Definition spec_contribution (x : num) (load : Load) : num :=
  let a := startPosition load / lit 1000 in
  match type load with
  | PointLoad => magnitude load * (x - a)
  | UniformLoad =>
      let b := endPosition_ load / lit 1000 in
      let loadedLength := Math_min (x - a) (b - a) in
      magnitude load * loadedLength * (x - (a + loadedLength / lit 2))
  end.

(** The moment at [x] as the specification has it:
    [M(x) = R1*(x-left) - sum of the contributions of the loads left of x]. *)
Definition spec_M (x : num) : num :=
  fold_left
    (fun moment load =>
       if x >? startPosition load / lit 1000
       then moment - spec_contribution x load
       else moment)
    (loads s)
    (R1 s * (x - leftSupportM s)).

(** Where the specification evaluates [M]: at a point load's application
    point, at both ends of a uniform load's span. *)
Definition spec_candidates (load : Load) : list num :=
  match type load with
  | PointLoad => [spec_M (startPosition load / lit 1000)]
  | UniformLoad =>
      [spec_M (startPosition load / lit 1000); spec_M (endPosition_ load / lit 1000)]
  end.

Definition spec_maxMoment : option num :=
  max_of (flat_map spec_candidates (loads s)).

End SpecMoment.

(** The flange and web inertia and the section modulus as the
    specification writes them, on dimensions in m. *)
Definition spec_I_flange_IBeam (bf tf h : num) : num :=
  bf * Math_pow tf 3 / lit 6 + lit 2 * bf * tf * Math_pow ((h - tf) / lit 2) 2.

Definition spec_I_flange_CChannel (bf tf h : num) : num :=
  bf * Math_pow tf 3 / lit 12 + bf * tf * Math_pow ((h - tf) / lit 2) 2.

Definition spec_I_web (tw tf h : num) : num :=
  tw * Math_pow (h - lit 2 * tf) 3 / lit 12.

Definition mm_to_m (v : num) : num := v / lit 1000.

End Kernel.

Arguments State num : clear implicits.
Arguments Load num : clear implicits.
Arguments Results num : clear implicits.
Arguments Point num : clear implicits.
Arguments CustomMaterial num : clear implicits.

(** ** Binary64: classes of values, and the states the statements use *)

Module F.

Import Binary64.
Open Scope float_scope.

(** NaN or an infinity. *)
Definition not_finite (v : float) : bool :=
  match Prim2SF v with
  | S754_nan | S754_infinity _ => true
  | _ => false
  end.

(** +0 or -0. *)
Definition zero_value (v : float) : bool :=
  match Prim2SF v with
  | S754_zero _ => true
  | _ => false
  end.

(** A finite number other than zero. *)
Definition finite_nonzero (v : float) : bool :=
  match Prim2SF v with
  | S754_finite _ _ _ => true
  | _ => false
  end.

(** +0, -0 or NaN: what [v - v] can be. *)
Definition zero_or_nan (v : float) : bool :=
  match Prim2SF v with
  | S754_zero _ | S754_nan => true
  | _ => false
  end.

(** NaN, or a number that is not below zero. *)
Definition nan_or_nonneg (v : float) : bool := is_nan v || (0 <=? v).

Definition noCustom : CustomMaterial float :=
  {| customYieldStrength := 0; customElasticModulus := 0; customDensity := 0 |}.

Definition pointLoad (P a : float) : Load float :=
  {| type := PointLoad; magnitude := P; startPosition := a; endPosition := None |}.

Definition uniformLoad (w a b : float) : Load float :=
  {| type := UniformLoad; magnitude := w; startPosition := a; endPosition := Some b |}.

(** The state the component starts in (the [useState] defaults). *)
Definition initialState : State float :=
  {| beamType := SimpleBeam; beamCrossSection := Rectangular; beamLength := 1000;
     leftSupport := 0; rightSupport := 1000;
     loads := [pointLoad 1000 500];
     material := ASTM_A36_Structural_Steel; customMaterial := noCustom;
     width := 100; height := 200; flangeWidth := 100; flangeThickness := 10;
     webThickness := 6; diameter := 100; beamDensity := 7850 |}.

(** A simple beam as it starts, with one point load pushing upwards. *)
Definition upwardLoad : State float :=
  setLoads initialState [pointLoad (-1000) 500].

(** Two equal point loads at the quarter points. *)
Definition twoPointLoads : State float :=
  setLoads initialState [pointLoad 1000 250; pointLoad 1000 750].

(** A cantilever of length [L] with one point load [P] at [startPosition = L]. *)
Definition cantileverTip (P L : float) : State float :=
  {| beamType := CantileverBeam; beamCrossSection := Rectangular; beamLength := L;
     leftSupport := 0; rightSupport := 1000;
     loads := [pointLoad P L];
     material := ASTM_A36_Structural_Steel; customMaterial := noCustom;
     width := 100; height := 200; flangeWidth := 100; flangeThickness := 10;
     webThickness := 6; diameter := 100; beamDensity := 7850 |}.

(** The first load switched to 'Uniform Load' in the form, before an end
    position is typed: [updateLoad] changes [type] only. *)
Definition uniformWithoutEnd : State float :=
  setLoads initialState
    [{| type := UniformLoad; magnitude := 1000; startPosition := 500;
        endPosition := None |}].

(** A uniform load pushing upwards over the whole span. *)
Definition upwardUniform : State float :=
  setLoads initialState [uniformLoad (-1000) 0 1000].

(** The point load moved to 70 mm. *)
Definition loadAt70 : State float :=
  setLoads initialState [pointLoad 1000 70].

(** The initial beam with an I-beam and with a C-channel section. *)
Definition initialIBeam : State float := setBeamCrossSection initialState IBeam.
Definition initialCChannel : State float := setBeamCrossSection initialState CChannel.

(** A cantilever with a uniform load followed by a point load. *)
Definition cantileverTwoLoads : State float :=
  setLoads (setBeamType initialState CantileverBeam)
    [uniformLoad 500 0 500; pointLoad 1000 750].

(** The material switched to 'Custom', its fields still 0. *)
Definition customUntouched : State float :=
  setMaterial initialState Custom.

(** A cantilever with a 1500 mm x 2000 mm rectangular section (section
    modulus 1 m^3) and 5e7 N at position 0: a normal stress of 50 MPa. *)
Definition stress50 : State float :=
  {| beamType := CantileverBeam; beamCrossSection := Rectangular; beamLength := 1000;
     leftSupport := 0; rightSupport := 1000;
     loads := [pointLoad 50000000 0];
     material := ASTM_A36_Structural_Steel; customMaterial := noCustom;
     width := 1500; height := 2000; flangeWidth := 100; flangeThickness := 10;
     webThickness := 6; diameter := 100; beamDensity := 7850 |}.

(** The load's magnitude set to 0. *)
Definition unloaded : State float :=
  setLoads initialState [pointLoad 0 500].

(** Both supports at 500 mm. *)
Definition coincidentSupports : State float :=
  {| beamType := SimpleBeam; beamCrossSection := Rectangular; beamLength := 1000;
     leftSupport := 500; rightSupport := 500;
     loads := [pointLoad 1000 250];
     material := ASTM_A36_Structural_Steel; customMaterial := noCustom;
     width := 100; height := 200; flangeWidth := 100; flangeThickness := 10;
     webThickness := 6; diameter := 100; beamDensity := 7850 |}.

(** The height of the rectangular section set to 0. *)
Definition zeroHeight : State float :=
  {| beamType := SimpleBeam; beamCrossSection := Rectangular; beamLength := 1000;
     leftSupport := 0; rightSupport := 1000;
     loads := [pointLoad 1000 500];
     material := ASTM_A36_Structural_Steel; customMaterial := noCustom;
     width := 100; height := 0; flangeWidth := 100; flangeThickness := 10;
     webThickness := 6; diameter := 100; beamDensity := 7850 |}.

(** For a beam length of [n] mm, whether the position [99 * (n / 99)]
    rounded to 2 decimals is [n]. *)
Definition lastPositionIsLength (n : Z) : bool :=
  Binary64.toFixed (99 * (of_Z n / 99)) 2 =? of_Z n.

(** A value that is NaN or an infinity is stored as it is. *)
Definition propagated (raw stored : float) : Prop :=
  not_finite raw = true -> stored = raw.

(** The beam as it starts, with the length and the supports set to 0. *)
Definition zeroLength : State float :=
  {| beamType := SimpleBeam; beamCrossSection := Rectangular; beamLength := 0;
     leftSupport := 0; rightSupport := 0;
     loads := [pointLoad 1000 500];
     material := ASTM_A36_Structural_Steel; customMaterial := noCustom;
     width := 100; height := 200; flangeWidth := 100; flangeThickness := 10;
     webThickness := 6; diameter := 100; beamDensity := 7850 |}.

End F.

(** ** Exact arithmetic: the states the statements use *)

Module E.

Import Exact.
Open Scope Q_scope.

(** A simple beam of length [L] mm on supports at [l] and [r] with one
    point load [P] at [a]. *)
Definition onePointLoad (L l r P a : Q) : State (option Q) :=
  {| beamType := SimpleBeam; beamCrossSection := Rectangular; beamLength := Some L;
     leftSupport := Some l; rightSupport := Some r;
     loads := [{| type := PointLoad; magnitude := Some P; startPosition := Some a;
                  endPosition := None |}];
     material := ASTM_A36_Structural_Steel;
     customMaterial := {| customYieldStrength := Some 0;
                          customElasticModulus := Some 0;
                          customDensity := Some 0 |};
     width := Some 100; height := Some 200; flangeWidth := Some 100;
     flangeThickness := Some 10; webThickness := Some 6; diameter := Some 100;
     beamDensity := Some 7850 |}.

End E.

(** ** The load list handlers (lines 316-328) *)

Section Handlers.

Context {num : Type} `{JSNumber num}.

Local Open Scope js_scope.

(** [Partial<Load>]: the fields an update carries.  The form passes one
    field at a time, always with a value. *)
Record PartialLoad := {
  newType : option LoadType;
  newMagnitude : option num;
  newStartPosition : option num;
  newEndPosition : option num
}.

(** [{ ...load, ...updatedLoad }] *)
Definition mergeLoad (load : Load num) (updatedLoad : PartialLoad) : Load num :=
  {| type := match newType updatedLoad with Some t => t | None => type load end;
     magnitude :=
       match newMagnitude updatedLoad with Some v => v | None => magnitude load end;
     startPosition :=
       match newStartPosition updatedLoad with
       | Some v => v
       | None => startPosition load
       end;
     endPosition :=
       match newEndPosition updatedLoad with
       | Some v => Some v
       | None => endPosition load
       end |}.

(** [l.filter((a, i) => p(a, i))] and [l.map((a, i) => f(a, i))], the index
    counted from [i]. *)
Fixpoint filterIndexed {A} (p : A -> nat -> bool) (l : list A) (i : nat) : list A :=
  match l with
  | [] => []
  | a :: l' =>
      if p a i then a :: filterIndexed p l' (S i) else filterIndexed p l' (S i)
  end.

Fixpoint mapIndexed {A B} (f : A -> nat -> B) (l : list A) (i : nat) : list B :=
  match l with
  | [] => []
  | a :: l' => f a i :: mapIndexed f l' (S i)
  end.

Definition addLoad (s : State num) : State num :=
  if (length (loads s) <? 3)%nat then
    setLoads s
      (loads s ++ [{| type := PointLoad; magnitude := lit 1000;
                      startPosition := beamLength s / lit 2;
                      endPosition := None |}])
  else s.

Definition removeLoad (s : State num) (index : nat) : State num :=
  setLoads s (filterIndexed (fun _ i => negb (i =? index)%nat) (loads s) 0).

Definition updateLoad (s : State num) (index : nat) (updatedLoad : PartialLoad)
  : State num :=
  setLoads s
    (mapIndexed (fun load i => if (i =? index)%nat then mergeLoad load updatedLoad
                               else load)
       (loads s) 0).

(** A call of one of the three handlers, and a sequence of calls. *)
Inductive Action :=
| AddLoad
| RemoveLoad (index : nat)
| UpdateLoad (index : nat) (updatedLoad : PartialLoad).

Definition handle (s : State num) (a : Action) : State num :=
  match a with
  | AddLoad => addLoad s
  | RemoveLoad index => removeLoad s index
  | UpdateLoad index updatedLoad => updateLoad s index updatedLoad
  end.

(** The form renders a 'Remove' button for the loads of index above 0
    only (line 950). *)
Definition removeRendered (a : Action) : bool :=
  match a with
  | RemoveLoad 0 => false
  | _ => true
  end.

(** The update the load-type select sends (line 961). *)
Definition typeUpdate (t : LoadType) : PartialLoad :=
  {| newType := Some t; newMagnitude := None; newStartPosition := None;
     newEndPosition := None |}.

End Handlers.

Arguments PartialLoad num : clear implicits.
Arguments Action num : clear implicits.

(** ** [BeamDiagram] (lines 66-204): where the supports and the loads are
    drawn.  The component receives [beamLength], [leftSupport],
    [rightSupport] and [loads] of the state. *)

Section BeamDiagram.

Context {num : Type} `{JSNumber num}.

Local Open Scope js_scope.

Variable s : State num.

Definition svgWidth : num := lit 500.
Definition svgHeight : num := lit 200.
Definition margin : num := lit 40.
Definition beamY : num := svgHeight / lit 2.
Definition supportSize : num := lit 30.

Definition leftSupportX : num :=
  margin + (leftSupport s / beamLength s) * (svgWidth - lit 2 * margin).

Definition rightSupportX : num :=
  margin + (rightSupport s / beamLength s) * (svgWidth - lit 2 * margin).

Definition loadStartX (load : Load num) : num :=
  margin + (startPosition load / beamLength s) * (svgWidth - lit 2 * margin).

Definition loadEndX (load : Load num) : num :=
  match type load with
  | UniformLoad =>
      margin + (endPosition_ load / beamLength s) * (svgWidth - lit 2 * margin)
  | PointLoad => loadStartX load
  end.

(** The arrows of a load: one for a point load, five for a uniform load
    ([Array.from({ length: 5 })]). *)
Definition arrowXs (load : Load num) : list num :=
  match type load with
  | PointLoad => [loadStartX load]
  | UniformLoad =>
      map (fun i => loadStartX load
                    + ((loadEndX load - loadStartX load) / lit 4) * lit (Z.of_nat i))
          (seq 0 5)
  end.

End BeamDiagram.

(** ** Exact arithmetic: loads given by rational numbers *)

Module QLoads.

Import Exact.
Open Scope Q_scope.

Inductive QLoad :=
| QPoint (P a : Q)
| QUniform (w a b : Q).

Definition toLoad (q : QLoad) : Load (option Q) :=
  match q with
  | QPoint P a =>
      {| type := PointLoad; magnitude := Some P; startPosition := Some a;
         endPosition := None |}
  | QUniform w a b =>
      {| type := UniformLoad; magnitude := Some w; startPosition := Some a;
         endPosition := Some (Some b) |}
  end.

Definition isPoint (q : QLoad) : bool :=
  match q with QPoint _ _ => true | QUniform _ _ _ => false end.

(** The total force of a load with its span in m, as [calculateResults]
    takes it, and with its span in mm, as [calculateDiagrams] takes it. *)
Definition weightM (q : QLoad) : Q :=
  match q with
  | QPoint P _ => P
  | QUniform w a b => w * (b / 1000 - a / 1000)
  end.

Definition weightMM (q : QLoad) : Q :=
  match q with
  | QPoint P _ => P
  | QUniform w a b => w * (b - a)
  end.

Definition sumQ (l : list Q) : Q := fold_right Qplus 0 l.

Definition startOf (q : QLoad) : Q :=
  match q with
  | QPoint _ a => a
  | QUniform _ a _ => a
  end.

Definition minQ (p q : Q) : Q := if Qle_bool p q then p else q.

(** What a load adds to [R1] and to [R2] in [calculateResults] (positions
    divided by 1000) and in [calculateDiagrams] (positions in mm), the
    supports being at [l] and [r]. *)
Definition r1M (l r : Q) (q : QLoad) : Q :=
  match q with
  | QPoint P a => P * (r / 1000 - a / 1000) / (r / 1000 - l / 1000)
  | QUniform w a b =>
      w * (b / 1000 - a / 1000) * (r / 1000 - (a / 1000 + b / 1000) / 2)
      / (r / 1000 - l / 1000)
  end.

Definition r2M (l r : Q) (q : QLoad) : Q :=
  match q with
  | QPoint P a => P * (a / 1000 - l / 1000) / (r / 1000 - l / 1000)
  | QUniform w a b =>
      w * (b / 1000 - a / 1000) * ((a / 1000 + b / 1000) / 2 - l / 1000)
      / (r / 1000 - l / 1000)
  end.

Definition r1MM (l r : Q) (q : QLoad) : Q :=
  match q with
  | QPoint P a => P * (r - a) / (r - l)
  | QUniform w a b => w * (b - a) * (r - (a + b) / 2) / (r - l)
  end.

Definition r2MM (l r : Q) (q : QLoad) : Q :=
  match q with
  | QPoint P a => P * (a - l) / (r - l)
  | QUniform w a b => w * (b - a) * ((a + b) / 2 - l) / (r - l)
  end.

(** What a load takes off the shear and off the moment at [x] in
    [calculateDiagrams]. *)
Definition shearCut (x : Q) (q : QLoad) : Q :=
  match q with
  | QPoint P a => if Qle_bool a x then P else 0
  | QUniform w a b => if Qle_bool a x then w * minQ (x - a) (b - a) else 0
  end.

Definition momentCut (x : Q) (q : QLoad) : Q :=
  match q with
  | QPoint P a => if negb (Qle_bool x a) then P * (x - a) else 0
  | QUniform w a b =>
      if negb (Qle_bool x a)
      then w * minQ (x - a) (b - a) * (x - (a + minQ (x - a) (b - a) / 2))
      else 0
  end.

(** A simple beam on supports at [l] and [r] and a cantilever, of length
    [L], with the loads [qs]. *)
Definition beam (t : BeamType) (L l r : Q) (qs : list QLoad) : State (option Q) :=
  {| beamType := t; beamCrossSection := Rectangular; beamLength := Some L;
     leftSupport := Some l; rightSupport := Some r;
     loads := map toLoad qs;
     material := ASTM_A36_Structural_Steel;
     customMaterial := {| customYieldStrength := Some 0;
                          customElasticModulus := Some 0;
                          customDensity := Some 0 |};
     width := Some 100; height := Some 200; flangeWidth := Some 100;
     flangeThickness := Some 10; webThickness := Some 6; diameter := Some 100;
     beamDensity := Some 7850 |}.

(** A beam with the given section, dimensions in mm. *)
Definition sectionOf (c : CrossSection) (w h bf tf tw d : Q) : State (option Q) :=
  {| beamType := SimpleBeam; beamCrossSection := c; beamLength := Some 1000;
     leftSupport := Some 0; rightSupport := Some 1000;
     loads := [toLoad (QPoint 1000 500)];
     material := ASTM_A36_Structural_Steel;
     customMaterial := {| customYieldStrength := Some 0;
                          customElasticModulus := Some 0;
                          customDensity := Some 0 |};
     width := Some w; height := Some h; flangeWidth := Some bf;
     flangeThickness := Some tf; webThickness := Some tw; diameter := Some d;
     beamDensity := Some 7850 |}.

(** The load lies at or left of [hi], its end not before its start; the
    load starts at or right of [lo]; the load starts right of [x]
    (positions in mm). *)
Definition leftOf (hi : Q) (q : QLoad) : Prop :=
  match q with
  | QPoint _ a => a <= hi
  | QUniform _ a b => a <= b /\ b <= hi
  end.

Definition rightOf (lo : Q) (q : QLoad) : Prop := lo <= startOf q.

Definition beyond (x : Q) (q : QLoad) : Prop := x < startOf q.

End QLoads.

(** * Properties *)

Unset Implicit Arguments.

(** ** The error monad *)

Lemma mapM_Ok {A B} (f : A -> result B) (g : A -> B) (l : list A) :
  (forall a, f a = Ok (g a)) -> mapM f l = Ok (map g l).
Proof.
  intros Hfg. induction l as [|a l IH]; simpl.
  - reflexivity.
  - rewrite Hfg, IH. reflexivity.
Qed.

Lemma mapM_ext {A B} (f f' : A -> result B) (l : list A) :
  (forall a, f a = f' a) -> mapM f l = mapM f' l.
Proof.
  intros E. induction l as [|a l IH]; simpl.
  - reflexivity.
  - rewrite E, IH. reflexivity.
Qed.

(** ** Facts that hold on every number instance *)

Section Generic.

Context {num : Type} `{JSNumber num}.

Local Open Scope js_scope.

(** [toFixed] returns for 0 to 100 digits; the program passes 2, 3 and 6. *)
Lemma toFixed_returns (v : num) (d : Z) :
  (0 <= d <= 100)%Z -> toFixed v d = Ok (Number_toFixed v d).
Proof.
  intros [H0 H100]. unfold toFixed.
  apply Z.leb_le in H0. apply Z.leb_le in H100.
  rewrite H0, H100. reflexivity.
Qed.

(** [calculateResults] returns, and these are the values it stores. *)
Lemma calculateResults_returns (s : State num) :
  calculateResults s =
  Ok (Number_toFixed (beamWeightN s) 2,
      {| maxShearForce := Number_toFixed (maxShearForce_ s) 2;
         maxBendingMoment := Number_toFixed (maxBendingMoment_ s) 2;
         maxNormalStress := Number_toFixed (maxNormalStress_ s) 2;
         maxShearStress := Number_toFixed (maxShearStress_ s) 2;
         safetyFactor :=
           Number_toFixed (materialProps_yieldStrength s / maxNormalStress_ s) 2;
         centerOfGravity := Number_toFixed (beamLengthM s / lit 2) 3;
         momentOfInertia := Number_toFixed (momentOfInertia_ s) 6;
         sectionModulus := Number_toFixed (sectionModulus_ s) 6 |}).
Proof. reflexivity. Qed.

Lemma samplePoint_returns (s : State num) (i : nat) :
  samplePoint s i = Ok (sampleShear s i, sampleMoment s i).
Proof.
  unfold samplePoint, sampleShear, sampleMoment.
  destruct (shearAndMoment s (lit (Z.of_nat i) * dx s)) as [shear moment].
  reflexivity.
Qed.

(** [calculateDiagrams] returns the two curves, one point per index. *)
Lemma calculateDiagrams_returns (s : State num) :
  calculateDiagrams s
  = Ok (map (sampleShear s) (seq 0 numPoints),
        map (sampleMoment s) (seq 0 numPoints)).
Proof.
  unfold calculateDiagrams. generalize (seq 0 numPoints). intros idx.
  rewrite (mapM_Ok (samplePoint s) (fun i => (sampleShear s i, sampleMoment s i))).
  - cbn [bind]. rewrite !map_map. reflexivity.
  - apply samplePoint_returns.
Qed.

Lemma nth_error_map_seq {B} (f : nat -> B) (n i : nat) :
  (i < n)%nat -> nth_error (map f (seq 0 n)) i = Some (f i).
Proof.
  intros Hi. rewrite nth_error_map.
  rewrite (nth_error_nth' (seq 0 n) 0%nat) by (rewrite length_seq; exact Hi).
  rewrite seq_nth by exact Hi. reflexivity.
Qed.

(** In the cantilever branch a load overwrites what the loads before it
    left in [shear] and [moment]. *)
Lemma cantileverStep_assigns (s : State num) (x0 : num) (sm sm' : num * num)
    (load : Load num) :
  cantileverStep s x0 sm load = cantileverStep s x0 sm' load.
Proof.
  unfold cantileverStep.
  destruct (type load); reflexivity.
Qed.

Lemma cantilever_last_load (s : State num) (x0 : num) (init : list (Load num))
    (last : Load num) (sm : num * num) :
  fold_left (cantileverStep s x0) (init ++ [last]) sm
  = cantileverStep s x0 (lit 0, lit 0) last.
Proof.
  rewrite fold_left_app. simpl.
  apply cantileverStep_assigns.
Qed.

End Generic.

(** ** Section properties, centre of gravity, cantilever curves *)

Section EveryInstance.

Context {num : Type} `{JSNumber num}.

Local Open Scope js_scope.

(** C4: the I-beam flange inertia is [bf*tf^3/6 + 2*bf*tf*((h-tf)/2)^2], the
    C-channel one [bf*tf^3/12 + bf*tf*((h-tf)/2)^2]; for both the total is
    [2*I_flange + tw*(h-2tf)^3/12] and the section modulus [I/(h/2)], on the
    dimensions converted from mm to m; the value stored is the total rounded
    to 6 decimals. *)
Theorem C4_flange_inertia_formulas (s : State num) :
  (beamCrossSection s = IBeam ->
   momentOfInertia_ s
   = lit 2 * spec_I_flange_IBeam (mm_to_m (flangeWidth s))
               (mm_to_m (flangeThickness s)) (mm_to_m (height s))
     + spec_I_web (mm_to_m (webThickness s)) (mm_to_m (flangeThickness s))
         (mm_to_m (height s))
   /\ sectionModulus_ s = momentOfInertia_ s / (mm_to_m (height s) / lit 2))
  /\ (beamCrossSection s = CChannel ->
      momentOfInertia_ s
      = lit 2 * spec_I_flange_CChannel (mm_to_m (flangeWidth s))
                  (mm_to_m (flangeThickness s)) (mm_to_m (height s))
        + spec_I_web (mm_to_m (webThickness s)) (mm_to_m (flangeThickness s))
            (mm_to_m (height s))
      /\ sectionModulus_ s = momentOfInertia_ s / (mm_to_m (height s) / lit 2))
  /\ exists w r, calculateResults s = Ok (w, r)
                 /\ momentOfInertia r = Number_toFixed (momentOfInertia_ s) 6
                 /\ sectionModulus r = Number_toFixed (sectionModulus_ s) 6.
Proof.
  split; [|split].
  - intros Hc. split.
    + unfold momentOfInertia_. rewrite Hc. reflexivity.
    + unfold sectionModulus_. rewrite Hc. reflexivity.
  - intros Hc. split.
    + unfold momentOfInertia_. rewrite Hc. reflexivity.
    + unfold sectionModulus_. rewrite Hc. reflexivity.
  - eexists. eexists. rewrite calculateResults_returns.
    split; [reflexivity|]. split; reflexivity.
Qed.

(** C6: on a cantilever beam each load assigns [shear] and [moment] whatever
    the loads before it left there, so at every position the values are
    those of the last load alone, and both curves are the curves of the beam
    that carries only the last load. *)
Theorem C6_cantilever_last_load_wins (s : State num) (init : list (Load num))
    (last : Load num) :
  beamType s = CantileverBeam ->
  loads s = init ++ [last] ->
  (forall x0 sm sm' load,
      cantileverStep s x0 sm load = cantileverStep s x0 sm' load)
  /\ (forall x0, shearAndMoment s x0 = shearAndMoment (setLoads s [last]) x0)
  /\ calculateDiagrams s = calculateDiagrams (setLoads s [last]).
Proof.
  intros Hb Hl.
  assert (Hsm : forall x0, shearAndMoment s x0 = shearAndMoment (setLoads s [last]) x0).
  { intros x0. unfold shearAndMoment.
    change (beamType (setLoads s [last])) with (beamType s).
    change (loads (setLoads s [last])) with [last].
    rewrite Hb, Hl, cantilever_last_load. reflexivity. }
  split; [|split].
  - intros. apply cantileverStep_assigns.
  - exact Hsm.
  - unfold calculateDiagrams.
    generalize (seq 0 numPoints). intros idx.
    rewrite (mapM_ext (samplePoint s) (samplePoint (setLoads s [last]))).
    + reflexivity.
    + intros i. rewrite !samplePoint_returns.
      unfold sampleShear, sampleMoment.
      change (dx (setLoads s [last])) with (dx s).
      change (sampleX (setLoads s [last]) i) with (sampleX s i).
      rewrite !Hsm. reflexivity.
Qed.

(** C9: the centre of gravity stored is half the beam length, in m, rounded
    to 3 decimals; nothing else of the state enters it. *)
Theorem C9_centerOfGravity_half_length (s : State num) :
  exists w r,
    calculateResults s = Ok (w, r)
    /\ centerOfGravity r = Number_toFixed (beamLength s / lit 1000 / lit 2) 3.
Proof.
  eexists. eexists. rewrite calculateResults_returns.
  split; reflexivity.
Qed.

End EveryInstance.

Module Binary64Instances.

Import Binary64 F.
Open Scope float_scope.

Lemma C4_flange_inertia_formulas_witness :
  (momentOfInertia_ initialIBeam
   = 2 * spec_I_flange_IBeam (100 / 1000) (10 / 1000) (200 / 1000)
     + spec_I_web (6 / 1000) (10 / 1000) (200 / 1000)
   /\ sectionModulus_ initialIBeam
      = momentOfInertia_ initialIBeam / (200 / 1000 / 2))
  /\ (momentOfInertia_ initialCChannel
      = 2 * spec_I_flange_CChannel (100 / 1000) (10 / 1000) (200 / 1000)
        + spec_I_web (6 / 1000) (10 / 1000) (200 / 1000)
      /\ sectionModulus_ initialCChannel
         = momentOfInertia_ initialCChannel / (200 / 1000 / 2)).
Proof.
  split.
  - exact (proj1 (C4_flange_inertia_formulas initialIBeam) eq_refl).
  - exact (proj1 (proj2 (C4_flange_inertia_formulas initialCChannel)) eq_refl).
Defined.

Lemma C6_cantilever_last_load_wins_witness :
  calculateDiagrams cantileverTwoLoads
  = calculateDiagrams (setLoads cantileverTwoLoads [pointLoad 1000 750]).
Proof.
  exact (proj2 (proj2 (C6_cantilever_last_load_wins cantileverTwoLoads
                         [uniformLoad 500 0 500] (pointLoad 1000 750)
                         eq_refl eq_refl))).
Defined.

(** The two flange formulas give different inertias on the same
    dimensions. *)
Lemma flange_inertia_differs :
  momentOfInertia_ initialIBeam <> momentOfInertia_ initialCChannel.
Proof.
  intros E. apply (f_equal Prim2SF) in E. vm_compute in E. discriminate E.
Qed.

End Binary64Instances.

(** ** Binary64 arithmetic *)

Module Binary64Facts.

Import Binary64 F.
Open Scope float_scope.

Lemma Prim2SF_neq (a b : float) : Prim2SF a <> Prim2SF b -> a <> b.
Proof. intros N E. apply N. rewrite E. reflexivity. Qed.

Lemma Prim2SF_0 : Prim2SF 0 = S754_zero false.
Proof. reflexivity. Qed.

Lemma leb_0_spec (v : float) : (0 <=? v) = SFleb (S754_zero false) (Prim2SF v).
Proof. rewrite leb_spec, Prim2SF_0. reflexivity. Qed.

Lemma SFcompare_refl_finite (sg : bool) (m : positive) (e : Z) :
  SFcompare (S754_finite sg m e) (S754_finite sg m e) = Some Eq.
Proof.
  simpl. rewrite Z.compare_refl, Pos.compare_cont_refl.
  destruct sg; reflexivity.
Qed.

Lemma is_nan_spec (v : float) :
  is_nan v = match Prim2SF v with S754_nan => true | _ => false end.
Proof.
  unfold is_nan. rewrite eqb_spec. unfold SFeqb.
  destruct (Prim2SF v) as [sg|sg| |sg m e].
  - reflexivity.
  - destruct sg; reflexivity.
  - reflexivity.
  - rewrite SFcompare_refl_finite. reflexivity.
Qed.

Lemma ltb_irrefl (v : float) : (v <? v) = false.
Proof.
  rewrite ltb_spec. unfold SFltb.
  destruct (Prim2SF v) as [sg|sg| |sg m e].
  - reflexivity.
  - destruct sg; reflexivity.
  - reflexivity.
  - rewrite SFcompare_refl_finite. reflexivity.
Qed.

(** *** NaN and the infinities go through *)

Lemma toFixed_not_finite (v : float) (d : Z) :
  not_finite v = true -> Binary64.toFixed v d = v.
Proof.
  unfold not_finite, Binary64.toFixed.
  destruct (Prim2SF v); intros E; try discriminate E; reflexivity.
Qed.

Lemma toFixed_zero (v : float) (d : Z) :
  zero_value v = true -> Binary64.toFixed v d = 0.
Proof.
  unfold zero_value, Binary64.toFixed.
  destruct (Prim2SF v); intros E; try discriminate E; reflexivity.
Qed.

Lemma sub_diag (v : float) : zero_or_nan (v - v) = true.
Proof.
  unfold zero_or_nan. rewrite sub_spec.
  destruct (Prim2SF v) as [sg|sg| |sg m e].
  - destruct sg; reflexivity.
  - destruct sg; reflexivity.
  - reflexivity.
  - unfold SF64sub, SFsub, shl_align.
    rewrite Z.min_id, Z.sub_diag. cbn [fst].
    reflexivity.
Qed.

Lemma div_zero_or_nan (a z : float) :
  zero_or_nan z = true -> not_finite (a / z) = true.
Proof.
  unfold zero_or_nan, not_finite. rewrite div_spec.
  destruct (Prim2SF z) as [sz|sz| |sz mz ez]; intros E; try discriminate E;
    destruct (Prim2SF a); reflexivity.
Qed.

Lemma div_not_finite_l (a b : float) :
  not_finite a = true -> not_finite (a / b) = true.
Proof.
  unfold not_finite. rewrite div_spec.
  destruct (Prim2SF a) as [sa|sa| |sa ma ea]; intros E; try discriminate E;
    destruct (Prim2SF b); reflexivity.
Qed.

Lemma add_not_finite_r (a b : float) :
  not_finite b = true -> not_finite (a + b) = true.
Proof.
  unfold not_finite. rewrite add_spec.
  destruct (Prim2SF b) as [sb|sb| |sb mb eb]; intros E; try discriminate E;
    destruct (Prim2SF a) as [sa|sa| |sa ma ea]; try reflexivity;
    destruct sa, sb; reflexivity.
Qed.

Lemma abs_not_finite (a : float) :
  not_finite a = true -> not_finite (abs a) = true.
Proof.
  unfold not_finite. rewrite abs_spec.
  destruct (Prim2SF a); intros E; try discriminate E; reflexivity.
Qed.

Lemma max_not_finite (a b : float) :
  not_finite a = true -> not_finite b = true ->
  not_finite (Binary64.max a b) = true.
Proof.
  intros Ha Hb. unfold Binary64.max.
  destruct (is_nan a || is_nan b); [reflexivity|].
  destruct (a <? b); [exact Hb|].
  destruct (b <? a); [exact Ha|].
  destruct (get_sign a); assumption.
Qed.

Lemma div_zero_by_finite (a b : float) :
  zero_value a = true -> finite_nonzero b = true -> zero_value (a / b) = true.
Proof.
  unfold zero_value, finite_nonzero. rewrite div_spec.
  destruct (Prim2SF a) as [sa|sa| |sa ma ea]; intros Ea; try discriminate Ea;
    destruct (Prim2SF b); intros Eb; try discriminate Eb; reflexivity.
Qed.

Lemma mul_zero_finite (a b : float) :
  zero_value a = true -> not_finite b = false -> zero_value (a * b) = true.
Proof.
  unfold zero_value, not_finite. rewrite mul_spec.
  destruct (Prim2SF a) as [sa|sa| |sa ma ea]; intros Ea; try discriminate Ea;
    destruct (Prim2SF b); intros Eb; try discriminate Eb; reflexivity.
Qed.

Lemma mul_zero_not_finite (a b : float) :
  zero_value a = true -> not_finite b = true -> is_nan (a * b) = true.
Proof.
  rewrite is_nan_spec. unfold zero_value, not_finite. rewrite mul_spec.
  destruct (Prim2SF a) as [sa|sa| |sa ma ea]; intros Ea; try discriminate Ea;
    destruct (Prim2SF b); intros Eb; try discriminate Eb; reflexivity.
Qed.

Lemma mul_zero_or_nan_r (a z : float) :
  zero_or_nan z = true -> zero_or_nan (a * z) = true.
Proof.
  unfold zero_or_nan. rewrite mul_spec.
  destruct (Prim2SF z) as [sz|sz| |sz mz ez]; intros E; try discriminate E;
    destruct (Prim2SF a); reflexivity.
Qed.

Lemma div_zero_or_nan_l (a b : float) :
  zero_or_nan a = true -> finite_nonzero b = true -> zero_or_nan (a / b) = true.
Proof.
  unfold zero_or_nan, finite_nonzero. rewrite div_spec.
  destruct (Prim2SF a) as [sa|sa| |sa ma ea]; intros Ea; try discriminate Ea;
    destruct (Prim2SF b); intros Eb; try discriminate Eb; reflexivity.
Qed.

Lemma div_zero_zero (a b : float) :
  zero_or_nan a = true -> zero_or_nan b = true -> is_nan (a / b) = true.
Proof.
  rewrite is_nan_spec. unfold zero_or_nan. rewrite div_spec.
  destruct (Prim2SF a) as [sa|sa| |sa ma ea]; intros Ea; try discriminate Ea;
    destruct (Prim2SF b); intros Eb; try discriminate Eb; reflexivity.
Qed.

Lemma div_nan_r (a b : float) : is_nan b = true -> is_nan (a / b) = true.
Proof.
  rewrite !is_nan_spec, div_spec.
  destruct (Prim2SF b); intros Eb; try discriminate Eb;
    destruct (Prim2SF a); reflexivity.
Qed.

Lemma div_nan_l (a b : float) : is_nan a = true -> is_nan (a / b) = true.
Proof.
  rewrite !is_nan_spec, div_spec.
  destruct (Prim2SF a); intros Ea; try discriminate Ea;
    destruct (Prim2SF b); reflexivity.
Qed.

Lemma nan_not_finite (a : float) : is_nan a = true -> not_finite a = true.
Proof.
  rewrite is_nan_spec. unfold not_finite.
  destruct (Prim2SF a); intros E; try discriminate E; reflexivity.
Qed.

(** *** Division does not overflow *)

Section Rounding.

Local Open Scope Z_scope.

Lemma digits2_pos_size (p : positive) : digits2_pos p = Pos.size p.
Proof. induction p; simpl; congruence. Qed.

Lemma Zdigits2_bounds (p : positive) :
  2 ^ (Zdigits2 (Zpos p) - 1) <= Zpos p < 2 ^ Zdigits2 (Zpos p).
Proof.
  unfold Zdigits2. rewrite digits2_pos_size.
  pose proof (Pos.size_gt p) as G. pose proof (Pos.size_le p) as L.
  apply Pos2Z.pos_lt_pos in G. apply Pos2Z.pos_le_pos in L.
  rewrite Pos2Z.inj_pow in G, L.
  split; [|exact G].
  assert (E : 2 ^ Z.pos (Pos.size p) = 2 * 2 ^ (Z.pos (Pos.size p) - 1)).
  { rewrite <- Z.pow_succ_r by lia. f_equal. lia. }
  rewrite E in L. change (Z.pos p~0) with (2 * Z.pos p) in L. lia.
Qed.

Lemma Zdigits2_nonneg (m : Z) : 0 <= Zdigits2 m.
Proof. destruct m; simpl; lia. Qed.

Lemma Zdigits2_le (a k : Z) : 0 <= a -> 0 <= k -> a < 2 ^ k -> Zdigits2 a <= k.
Proof.
  intros Ha Hk Hlt. destruct a as [|p|p]; [simpl; lia| |lia].
  destruct (Zdigits2_bounds p) as [Lo _].
  pose proof (Zdigits2_nonneg (Zpos p)).
  assert (Zdigits2 (Zpos p) - 1 < k); [|lia].
  apply (Z.pow_lt_mono_r_iff 2); lia.
Qed.

Lemma Zdigits2_lt (a : Z) : 0 <= a -> a < 2 ^ Zdigits2 a.
Proof.
  intros Ha. destruct a as [|p|p]; [simpl; lia| |lia].
  apply Zdigits2_bounds.
Qed.

Lemma shr_1_m (mrs : shr_record) :
  0 <= shr_m mrs -> shr_m (shr_1 mrs) = shr_m mrs / 2.
Proof.
  destruct mrs as [m r s]. simpl. intros Hm.
  destruct m as [|p|p]; [reflexivity| |lia].
  destruct p as [p|p|]; simpl shr_m.
  - rewrite Pos2Z.inj_xI. apply Z.div_unique with 1; lia.
  - rewrite Pos2Z.inj_xO. apply Z.div_unique with 0; lia.
  - reflexivity.
Qed.

Lemma iter_shr_1_m (p : positive) (mrs : shr_record) :
  0 <= shr_m mrs -> shr_m (iter_pos shr_1 p mrs) = shr_m mrs / 2 ^ Zpos p.
Proof.
  revert mrs. induction p as [p IH|p IH|]; intros mrs Hm; simpl iter_pos.
  - assert (H1 : 0 <= shr_m (shr_1 mrs)).
    { rewrite shr_1_m by exact Hm. apply Z.div_pos; lia. }
    assert (H2 : 0 <= shr_m (iter_pos shr_1 p (shr_1 mrs))).
    { rewrite IH by exact H1. apply Z.div_pos; [exact H1|]. apply Z.pow_pos_nonneg; lia. }
    rewrite IH by exact H2. rewrite IH by exact H1. rewrite shr_1_m by exact Hm.
    rewrite !Z.div_div by (try apply Z.pow_pos_nonneg; lia).
    f_equal. rewrite Pos2Z.inj_xI, Z.pow_add_r, Z.pow_mul_r by lia.
    change (2 ^ 2) with 4. change (2 ^ 1) with 2.
    replace (4 ^ Z.pos p) with (2 ^ Z.pos p * 2 ^ Z.pos p).
    + ring.
    + rewrite <- Z.pow_add_r by lia. replace (Z.pos p + Z.pos p) with (2 * Z.pos p) by lia.
      rewrite Z.pow_mul_r by lia. reflexivity.
  - assert (H2 : 0 <= shr_m (iter_pos shr_1 p mrs)).
    { rewrite IH by exact Hm. apply Z.div_pos; [exact Hm|]. apply Z.pow_pos_nonneg; lia. }
    rewrite IH by exact H2. rewrite IH by exact Hm.
    rewrite !Z.div_div by (try apply Z.pow_pos_nonneg; lia).
    f_equal. rewrite Pos2Z.inj_xO.
    rewrite <- Z.pow_add_r by lia. f_equal. lia.
  - rewrite shr_1_m by exact Hm. reflexivity.
Qed.

Lemma shr_record_of_loc_m (m : Z) (l : location) : shr_m (shr_record_of_loc m l) = m.
Proof. destruct l as [|[]]; reflexivity. Qed.

Lemma shr_fexp_bounds (m e : Z) (l : location) :
  0 <= m ->
  0 <= shr_m (fst (shr_fexp prec emax m e l))
  /\ snd (shr_fexp prec emax m e l) = Z.max e (fexp prec emax (Zdigits2 m + e))
  /\ Zdigits2 (shr_m (fst (shr_fexp prec emax m e l))) + snd (shr_fexp prec emax m e l)
     <= Z.max (Zdigits2 m + e) (snd (shr_fexp prec emax m e l)).
Proof.
  intros Hm. unfold shr_fexp, shr.
  pose proof (shr_record_of_loc_m m l) as Em.
  set (mrs := shr_record_of_loc m l) in *.
  set (f := fexp prec emax (Zdigits2 m + e)).
  destruct (f - e) as [|p|p] eqn:En; cbn [fst snd].
  - rewrite Em. lia.
  - assert (H0 : 0 <= shr_m mrs) by (rewrite Em; exact Hm).
    rewrite (iter_shr_1_m p mrs H0), Em.
    assert (P2 : 0 < 2 ^ Z.pos p) by (apply Z.pow_pos_nonneg; lia).
    split; [apply Z.div_pos; lia|]. split; [lia|].
    pose proof (Zdigits2_nonneg m) as Dn.
    pose proof (Zdigits2_lt m Hm) as Dl.
    destruct (Z_lt_le_dec (Z.pos p) (Zdigits2 m)) as [Hlt|Hge].
    + assert (Zdigits2 (m / 2 ^ Z.pos p) <= Zdigits2 m - Z.pos p); [|lia].
      apply Zdigits2_le; [apply Z.div_pos; lia|lia|].
      apply Z.div_lt_upper_bound; [lia|].
      rewrite <- Z.pow_add_r by lia.
      replace (Z.pos p + (Zdigits2 m - Z.pos p)) with (Zdigits2 m) by lia. exact Dl.
    + assert (E0 : m / 2 ^ Z.pos p = 0).
      { apply Z.div_small. split; [exact Hm|].
        apply Z.lt_le_trans with (2 ^ Zdigits2 m); [exact Dl|].
        apply Z.pow_le_mono_r; lia. }
      rewrite E0. simpl Zdigits2. lia.
  - rewrite Em. lia.
Qed.

Lemma round_nearest_even_bounds (mx : Z) (lx : location) :
  0 <= mx -> mx <= round_nearest_even mx lx <= mx + 1.
Proof.
  intros Hm. unfold round_nearest_even.
  destruct lx as [|[]]; try destruct (Z.even mx); lia.
Qed.

Lemma Zdigits2_mono (a b : Z) : 0 <= a <= b -> Zdigits2 a <= Zdigits2 b.
Proof.
  intros [Ha Hab]. apply Zdigits2_le; [lia|apply Zdigits2_nonneg|].
  pose proof (Zdigits2_lt b). lia.
Qed.

Lemma Zdigits2_succ (a : Z) : 0 <= a -> Zdigits2 (a + 1) <= Zdigits2 a + 1.
Proof.
  intros Ha. pose proof (Zdigits2_nonneg a). pose proof (Zdigits2_lt a Ha).
  apply Zdigits2_le; [lia|lia|].
  rewrite Z.pow_add_r by lia. change (2 ^ 1) with 2. lia.
Qed.

(** Rounding does not overflow when the value is below 2^1023. *)
Lemma binary_round_aux_finite (sg : bool) (m e : Z) (l : location) :
  0 <= m -> e <= 971 -> Zdigits2 m + e <= 1023 ->
  match binary_round_aux prec emax sg m e l with
  | S754_nan | S754_infinity _ => False
  | _ => True
  end.
Proof.
  intros Hm He Hd. unfold binary_round_aux.
  destruct (shr_fexp_bounds m e l Hm) as (B1 & B2 & B3).
  destruct (shr_fexp prec emax m e l) as [mrs' e'] eqn:E1. cbn [fst snd] in *.
  set (m1 := round_nearest_even (shr_m mrs') (loc_of_shr_record mrs')).
  pose proof (round_nearest_even_bounds (shr_m mrs') (loc_of_shr_record mrs') B1) as R.
  fold m1 in R.
  assert (Hm1 : 0 <= m1) by lia.
  destruct (shr_fexp_bounds m1 e' loc_Exact Hm1) as (C1 & C2 & _).
  destruct (shr_fexp prec emax m1 e' loc_Exact) as [mrs'' e''] eqn:E2.
  cbn [fst snd] in *.
  assert (D1 : Zdigits2 m1 <= Zdigits2 (shr_m mrs') + 1).
  { apply Z.le_trans with (Zdigits2 (shr_m mrs' + 1)).
    - apply Zdigits2_mono. lia.
    - apply Zdigits2_succ. exact B1. }
  assert (F1 : e' <= 971).
  { rewrite B2. unfold fexp, SpecFloat.emin, prec, emax. lia. }
  assert (F2 : e'' <= 971).
  { rewrite C2. unfold fexp, SpecFloat.emin, prec, emax. lia. }
  destruct (shr_m mrs'') as [|p|p]; [exact I| |lia].
  replace (e'' <=? emax - prec) with true; [exact I|].
  symmetry. apply Z.leb_le. unfold emax, prec. lia.
Qed.

(** Dividing a finite number by a number of magnitude 2 or more gives a
    finite number or zero. *)
Lemma SFdiv_finite (sx sy : bool) (mx my : positive) (ex ey : Z) :
  bounded prec emax mx ex = true ->
  digits2_pos my = 53%positive ->
  -51 <= ey ->
  match SF64div (S754_finite sx mx ex) (S754_finite sy my ey) with
  | S754_nan | S754_infinity _ => False
  | _ => True
  end.
Proof.
  intros Hb Hy Hey. unfold SF64div, SFdiv, SFdiv_core_binary.
  unfold bounded, canonical_mantissa in Hb.
  apply andb_prop in Hb. destruct Hb as [Hc Hb].
  apply Z.eqb_eq in Hc. apply Z.leb_le in Hb.
  cbn [Zdigits2]. rewrite Hy.
  set (d1 := Z.pos (digits2_pos mx)) in *.
  assert (Hd1 : 0 < d1) by (unfold d1; lia).
  assert (Hd1' : d1 <= 53).
  { revert Hc. unfold fexp, SpecFloat.emin, prec, emax. lia. }
  assert (Hex : ex <= 971) by (revert Hb; unfold prec, emax; lia).
  set (e' := Z.min (fexp prec emax (d1 + ex - (53 + ey))) (ex - ey)).
  set (s := ex - ey - e').
  assert (Hs : 0 <= s) by (unfold s, e'; lia).
  set (m' := match s with Z.pos _ => Z.shiftl (Z.pos mx) s | 0 => Z.pos mx | Z.neg _ => 0 end).
  assert (Em' : m' = Z.pos mx * 2 ^ s).
  { unfold m'. destruct s as [|p|p]; [rewrite Z.mul_1_r; reflexivity| |lia].
    apply Z.shiftl_mul_pow2. lia. }
  pose proof (Zdigits2_bounds my) as By. cbn [Zdigits2] in By. rewrite Hy in By.
  pose proof (Zdigits2_bounds mx) as Bx. cbn [Zdigits2] in Bx. fold d1 in Bx.
  assert (P2 : 0 < 2 ^ s) by (apply Z.pow_pos_nonneg; lia).
  assert (Hm' : 0 <= m' < 2 ^ (d1 + s)).
  { rewrite Em'. split; [lia|]. rewrite Z.pow_add_r by lia.
    apply Z.mul_lt_mono_pos_r; lia. }
  assert (Eq : fst (Z.div_eucl m' (Z.pos my)) = m' / Z.pos my) by reflexivity.
  destruct (Z.div_eucl m' (Z.pos my)) as [q r] eqn:Ed. cbn [fst] in Eq.
  assert (Hq : 0 <= q) by (rewrite Eq; apply Z.div_pos; lia).
  assert (Hq' : q <= m' / 2 ^ 52).
  { rewrite Eq. apply Z.div_le_compat_l; [lia|]. change (53 - 1) with 52 in By. lia. }
  assert (He' : e' <= 971).
  { unfold e', fexp, SpecFloat.emin, prec, emax. lia. }
  apply binary_round_aux_finite; [exact Hq|exact He'|].
  destruct (Z_lt_le_dec (d1 + s) 52) as [Hlt|Hge].
  - assert (Q0 : q = 0).
    { assert (m' / 2 ^ 52 = 0); [|lia].
      apply Z.div_small. split; [lia|].
      apply Z.lt_le_trans with (2 ^ (d1 + s)); [lia|].
      apply Z.pow_le_mono_r; lia. }
    rewrite Q0. simpl Zdigits2. lia.
  - assert (Zdigits2 q <= d1 + s - 52); [|unfold s in *; lia].
    apply Zdigits2_le; [exact Hq|lia|].
    apply Z.le_lt_trans with (m' / 2 ^ 52); [exact Hq'|].
    apply Z.div_lt_upper_bound; [lia|].
    rewrite <- Z.pow_add_r by lia.
    replace (52 + (d1 + s - 52)) with (d1 + s) by lia. lia.
Qed.

End Rounding.

Lemma div_finite (a b : float) (sy : bool) (my : positive) (ey : Z) :
  Prim2SF b = S754_finite sy my ey ->
  digits2_pos my = 53%positive ->
  (-51 <= ey)%Z ->
  not_finite a = false -> not_finite (a / b) = false.
Proof.
  intros Eb Hy Hey. unfold not_finite. rewrite div_spec, Eb.
  pose proof (Prim2SF_valid a) as V.
  destruct (Prim2SF a) as [sa|sa| |sa ma ea]; intros F; try discriminate F.
  - reflexivity.
  - pose proof (SFdiv_finite sa sy ma my ea ey V Hy Hey) as D.
    destruct (SF64div (S754_finite sa ma ea) (S754_finite sy my ey));
      try contradiction; reflexivity.
Qed.

Lemma div_99_finite (a : float) :
  not_finite a = false -> not_finite (a / 99) = false.
Proof.
  apply (div_finite a 99 false 6966505673588736 (-46)).
  - vm_compute. reflexivity.
  - reflexivity.
  - lia.
Qed.

(** *** [Math.max] from zero *)

Lemma SFleb_zero_ltb (A B : spec_float) :
  SFleb (S754_zero false) A = true -> SFltb A B = true ->
  SFleb (S754_zero false) B = true.
Proof.
  destruct A as [sa|sa| |sa ma ea], B as [sb|sb| |sb mb eb];
    try destruct sa; try destruct sb; cbn;
    intros HA HB; try discriminate HA; try discriminate HB; reflexivity.
Qed.

Lemma SFleb_zero_eq (A B : spec_float) :
  SFleb (S754_zero false) A = true ->
  B <> S754_nan ->
  SFltb A B = false -> SFltb B A = false ->
  SFleb (S754_zero false) B = true.
Proof.
  destruct A as [sa|sa| |sa ma ea], B as [sb|sb| |sb mb eb];
    try destruct sa; try destruct sb; cbn;
    intros HA HN HAB HBA; try discriminate HA; try discriminate HAB;
    try discriminate HBA; try reflexivity; try (exfalso; apply HN; reflexivity).
Qed.

Lemma max_nan_or_nonneg (a b : float) :
  nan_or_nonneg a = true -> nan_or_nonneg (Binary64.max a b) = true.
Proof.
  unfold nan_or_nonneg, Binary64.max. intros Ha.
  destruct (is_nan a) eqn:Na; [reflexivity|].
  destruct (is_nan b) eqn:Nb; [reflexivity|].
  cbn [orb] in *.
  rewrite leb_0_spec in Ha.
  rewrite is_nan_spec in Nb.
  destruct (a <? b) eqn:Lab.
  - rewrite ltb_spec in Lab. rewrite leb_0_spec.
    rewrite (SFleb_zero_ltb _ _ Ha Lab). apply orb_true_r.
  - destruct (b <? a) eqn:Lba.
    + rewrite Na, leb_0_spec, Ha. reflexivity.
    + destruct (get_sign a).
      * rewrite ltb_spec in Lab, Lba. rewrite leb_0_spec.
        rewrite (SFleb_zero_eq (Prim2SF a) (Prim2SF b)); auto using orb_true_r.
        intros E. rewrite E in Nb. discriminate Nb.
      * rewrite Na, leb_0_spec, Ha. reflexivity.
Qed.

Lemma max_zero_nonpos (c : float) : (c <=? 0) = true -> Binary64.max 0 c = 0.
Proof.
  intros Hc. unfold Binary64.max.
  rewrite leb_spec, Prim2SF_0 in Hc.
  assert (Nc : is_nan c = false).
  { rewrite is_nan_spec.
    destruct (Prim2SF c); try reflexivity. discriminate Hc. }
  assert (Lt0 : (0 <? c) = false).
  { rewrite ltb_spec, Prim2SF_0.
    destruct (Prim2SF c) as [sc|sc| |sc mc ec]; try destruct sc;
      try reflexivity; discriminate Hc. }
  rewrite Nc, Lt0. cbn.
  destruct (c <? 0); reflexivity.
Qed.

Lemma max_zero_zero_or_nan (c : float) :
  zero_or_nan c = true -> zero_or_nan (Binary64.max 0 c) = true.
Proof.
  intros Hc. destruct (is_nan c) eqn:Nc.
  - unfold Binary64.max. rewrite Nc, orb_true_r. reflexivity.
  - rewrite max_zero_nonpos; [reflexivity|].
    rewrite leb_spec, Prim2SF_0. rewrite is_nan_spec in Nc.
    unfold zero_or_nan in Hc.
    destruct (Prim2SF c); try discriminate Hc; try discriminate Nc; reflexivity.
Qed.

End Binary64Facts.

(** ** The maximum bending moment *)

Section MaxMoment.

Context {num : Type} `{JSNumber num}.

Lemma fold_left_flat_map {A B} (f : A -> B -> A) (g : Load num -> list B)
    (l : list (Load num)) (a : A) :
  fold_left f (flat_map g l) a = fold_left (fun a0 x0 => fold_left f (g x0) a0) l a.
Proof.
  revert a. induction l as [|b l IH]; intros a; simpl.
  - reflexivity.
  - rewrite fold_left_app. apply IH.
Qed.

Lemma fold_left_same {A B} (f g : A -> B -> A) (l : list B) (a : A) :
  (forall a0 b, f a0 b = g a0 b) -> fold_left f l a = fold_left g l a.
Proof.
  intros E. revert a. induction l as [|b l IH]; intros a; simpl.
  - reflexivity.
  - rewrite E. apply IH.
Qed.

(** [maxBendingMoment] starts at 0 and is replaced by [Math.max] of itself
    and the candidates, load after load. *)
Lemma maxBendingMoment_candidates (s : State num) :
  maxBendingMoment_ s
  = fold_left Math_max (flat_map (momentCandidates s) (loads s)) (lit 0).
Proof.
  rewrite fold_left_flat_map.
  unfold maxBendingMoment_, momentCandidates.
  destruct (beamType s).
  - apply fold_left_same. intros m load.
    unfold simpleMomentStep. destruct (type load); reflexivity.
  - apply fold_left_same. intros m load.
    unfold cantileverMomentStep. reflexivity.
Qed.

End MaxMoment.

Module MaxMomentFacts.

Import Binary64 F Binary64Facts.
Open Scope float_scope.

Lemma fold_max_nan_or_nonneg (cs : list float) (m : float) :
  nan_or_nonneg m = true -> nan_or_nonneg (fold_left Binary64.max cs m) = true.
Proof.
  revert m. induction cs as [|c cs IH]; intros m Hm; simpl.
  - exact Hm.
  - apply IH. apply max_nan_or_nonneg. exact Hm.
Qed.

Lemma fold_max_nonpos (cs : list float) :
  (forall c, In c cs -> (c <=? 0) = true) -> fold_left Binary64.max cs 0 = 0.
Proof.
  induction cs as [|c cs IH]; intros Hcs; simpl.
  - reflexivity.
  - rewrite max_zero_nonpos.
    + apply IH. intros c' Hc'. apply Hcs. right. exact Hc'.
    + apply Hcs. left. reflexivity.
Qed.

(** C1, where the statement fails: with one upward point load at midspan
    the moment at the load is -250 N.m, the only candidate, and the value
    kept is 0. *)
Lemma C1_counterexample :
  spec_maxMoment upwardLoad = Some (-250)
  /\ maxBendingMoment_ upwardLoad = 0
  /\ Some (maxBendingMoment_ upwardLoad) <> spec_maxMoment upwardLoad.
Proof.
  split; [reflexivity|]. split; [reflexivity|].
  intros E. apply (f_equal (option_map Prim2SF)) in E.
  vm_compute in E. discriminate E.
Qed.

(** C1, amended: on a simple beam [maxBendingMoment] is the largest of 0
    and the candidates, one for a point load and two for a uniform load;
    with a single point load the candidate is the moment [M] at the
    load, [R1 * (x - left)], no load being left of it. *)
Theorem C1_simple_max_moment (s : State float) :
  beamType s = SimpleBeam ->
  maxBendingMoment_ s
  = fold_left Math_max (flat_map (momentCandidates s) (loads s)) 0
  /\ (forall load,
        length (momentCandidates s load)
        = match type load with PointLoad => 1%nat | UniformLoad => 2%nat end)
  /\ (forall load,
        loads s = [load] -> type load = PointLoad ->
        spec_maxMoment s = Some (spec_M s (startPosition load / 1000))
        /\ spec_M s (startPosition load / 1000)
           = R1 s * (startPosition load / 1000 - leftSupportM s)
        /\ maxBendingMoment_ s
           = Math_max 0 (spec_M s (startPosition load / 1000))).
Proof.
  intros Hb. split; [|split].
  - exact (maxBendingMoment_candidates s).
  - intros load. unfold momentCandidates. rewrite Hb.
    destruct (type load); reflexivity.
  - intros load Hl Ht.
    assert (HM : spec_M s (startPosition load / 1000)
                 = R1 s * (startPosition load / 1000 - leftSupportM s)).
    { unfold spec_M. rewrite Hl. cbn [fold_left].
      change (num_ltb (startPosition load / lit 1000)%js (startPosition load / 1000))
        with (startPosition load / 1000 <? startPosition load / 1000).
      rewrite ltb_irrefl. reflexivity. }
    split; [|split].
    + unfold spec_maxMoment, spec_candidates. rewrite Hl. cbn [flat_map].
      rewrite Ht. reflexivity.
    + exact HM.
    + rewrite HM. unfold maxBendingMoment_. rewrite Hb, Hl. cbn [fold_left].
      unfold simpleMomentStep. rewrite Ht. reflexivity.
Qed.

Lemma C1_simple_max_moment_witness :
  maxBendingMoment_ initialState
  = Math_max 0 (spec_M initialState (500 / 1000))
  /\ maxBendingMoment_ initialState = 250.
Proof.
  split; [|reflexivity].
  apply (proj2 (proj2 (C1_simple_max_moment initialState eq_refl))
           (pointLoad 1000 500) eq_refl eq_refl).
Defined.

(** With two point loads the candidate at the second load is
    [R1 * (x - left)] with nothing taken off for the first, 750 N.m, where
    [M] there is 250 N.m, as the moment curve of [calculateDiagrams] has it
    (in N.mm). *)
Lemma two_point_loads_moment :
  maxBendingMoment_ twoPointLoads = 750
  /\ spec_maxMoment twoPointLoads = Some 250
  /\ simpleMoment twoPointLoads 750 = 250000.
Proof. repeat split; reflexivity. Qed.

(** C2: on a cantilever with one point load [P] at [startPosition] equal
    to the beam length, [R1] is [0 + P], and the moment kept is
    [Math.max(0, P * (length - length))]: zero, or NaN when [P] or the length
    is not a finite number, whatever [P] and the length; for 1000 N at the
    end of 1000 mm it is 0 where [P * length] is 1000 N.m. *)
Theorem C2_cantilever_end_load (P L : float) :
  R1 (cantileverTip P L) = 0 + P
  /\ maxBendingMoment_ (cantileverTip P L) = Math_max 0 (P * (L / 1000 - L / 1000))
  /\ zero_or_nan (maxBendingMoment_ (cantileverTip P L)) = true
  /\ R1 (cantileverTip 1000 1000) = 1000
  /\ maxBendingMoment_ (cantileverTip 1000 1000) = 0
  /\ 1000 * beamLengthM (cantileverTip 1000 1000) = 1000.
Proof.
  split; [reflexivity|]. split; [reflexivity|].
  split; [|repeat split; reflexivity].
  change (maxBendingMoment_ (cantileverTip P L))
    with (Binary64.max 0 (P * (L / 1000 - L / 1000))).
  apply max_zero_zero_or_nan, mul_zero_or_nan_r, sub_diag.
Qed.

(** C10, where the statement fails: a uniform load whose end position was
    never entered makes every candidate NaN, and the maximum with it is NaN,
    which is not at least 0; an upward uniform load over the span reports
    250 N.m, not 0. *)
Lemma C10_counterexample :
  (is_nan (maxBendingMoment_ uniformWithoutEnd) = true
   /\ (0 <=? maxBendingMoment_ uniformWithoutEnd) = false)
  /\ (Forall (fun load => (magnitude load <? 0) = true) (loads upwardUniform)
      /\ maxBendingMoment_ upwardUniform = 250).
Proof.
  split; [split; reflexivity|].
  split; [|reflexivity].
  repeat constructor.
Qed.

(** C10, amended: for either beam type and any loads [maxBendingMoment]
    starts at 0 and is only replaced by [Math.max] with a candidate moment,
    so it is never below 0: it is at least 0, or NaN once a candidate is NaN;
    when no candidate is above 0 it is 0. *)
Theorem C10_max_moment_never_negative (s : State float) :
  maxBendingMoment_ s
  = fold_left Math_max (flat_map (momentCandidates s) (loads s)) 0
  /\ nan_or_nonneg (maxBendingMoment_ s) = true
  /\ (maxBendingMoment_ s <? 0) = false
  /\ ((forall c, In c (flat_map (momentCandidates s) (loads s)) -> (c <=? 0) = true) ->
      maxBendingMoment_ s = 0).
Proof.
  assert (E : maxBendingMoment_ s
              = fold_left Binary64.max (flat_map (momentCandidates s) (loads s)) 0).
  { exact (maxBendingMoment_candidates s). }
  assert (N : nan_or_nonneg (maxBendingMoment_ s) = true).
  { rewrite E. apply fold_max_nan_or_nonneg. reflexivity. }
  split; [exact E|]. split; [exact N|]. split.
  - unfold nan_or_nonneg in N. rewrite is_nan_spec, leb_0_spec in N.
    rewrite ltb_spec, Prim2SF_0.
    destruct (Prim2SF (maxBendingMoment_ s)) as [sg|sg| |sg m e];
      try destruct sg; try reflexivity; discriminate N.
  - intros Hc. rewrite E. apply fold_max_nonpos. exact Hc.
Qed.

Lemma C10_max_moment_never_negative_witness :
  maxBendingMoment_ upwardLoad = 0.
Proof.
  apply (proj2 (proj2 (proj2 (C10_max_moment_never_negative upwardLoad)))).
  intros c [E|[]]. rewrite <- E. reflexivity.
Defined.

End MaxMomentFacts.

(** ** Stresses, safety factor, degenerate inputs *)

Module StressFacts.

Import Binary64 F Binary64Facts.
Open Scope float_scope.

Lemma zero_value_finite (a : float) : zero_value a = true -> not_finite a = false.
Proof.
  unfold zero_value, not_finite.
  destruct (Prim2SF a); intros E; try discriminate E; reflexivity.
Qed.

Lemma zero_value_zero_or_nan (a : float) : zero_value a = true -> zero_or_nan a = true.
Proof.
  unfold zero_value, zero_or_nan.
  destruct (Prim2SF a); intros E; try discriminate E; reflexivity.
Qed.

(** C7, where the statement fails: with the material 'Custom' and its yield
    strength still 0, the normal stress of the initial beam is a finite
    number other than zero and the safety factor stored is 0, neither
    infinite nor NaN. *)
Lemma C7_counterexample :
  exists w r,
    calculateResults customUntouched = Ok (w, r)
    /\ zero_value (materialProps_yieldStrength customUntouched) = true
    /\ finite_nonzero (maxNormalStress_ customUntouched) = true
    /\ safetyFactor r = 0
    /\ not_finite (safetyFactor r) = false.
Proof.
  eexists. eexists. rewrite calculateResults_returns.
  split; [reflexivity|]. repeat split; reflexivity.
Qed.

(** C7, amended: the safety factor stored is [yieldStrength / normalStress]
    rounded to 2 decimals, with [normalStress = (maxBendingMoment /
    sectionModulus) / 1e6]; for ASTM A36 steel and a normal stress of 50 MPa it
    is 5; when the normal stress is zero it is an infinity or NaN, stored as
    computed; when the yield strength is zero and the normal stress is a
    finite number other than zero it is 0. *)
Theorem C7_safety_factor (s : State float) :
  exists w r,
    calculateResults s = Ok (w, r)
    /\ maxNormalStress_ s = maxBendingMoment_ s / sectionModulus_ s / 1000000
    /\ safetyFactor r
       = Binary64.toFixed (materialProps_yieldStrength s / maxNormalStress_ s) 2
    /\ (material s = ASTM_A36_Structural_Steel ->
        maxNormalStress_ s = 50 -> safetyFactor r = 5)
    /\ (zero_value (maxNormalStress_ s) = true ->
        not_finite (safetyFactor r) = true
        /\ safetyFactor r = materialProps_yieldStrength s / maxNormalStress_ s)
    /\ (zero_value (materialProps_yieldStrength s) = true ->
        finite_nonzero (maxNormalStress_ s) = true ->
        safetyFactor r = 0).
Proof.
  eexists. eexists. rewrite calculateResults_returns.
  split; [reflexivity|]. split; [reflexivity|]. split; [reflexivity|].
  cbn [safetyFactor].
  change (Number_toFixed (materialProps_yieldStrength s / maxNormalStress_ s)%js 2)
    with (Binary64.toFixed (materialProps_yieldStrength s / maxNormalStress_ s) 2).
  split; [|split].
  - intros Hm Hs. unfold materialProps_yieldStrength. rewrite Hm, Hs. reflexivity.
  - intros Hz.
    assert (N : not_finite (materialProps_yieldStrength s / maxNormalStress_ s) = true).
    { apply div_zero_or_nan, zero_value_zero_or_nan, Hz. }
    rewrite (toFixed_not_finite _ _ N). split; [exact N|reflexivity].
  - intros Hy Hs. apply toFixed_zero, div_zero_by_finite; assumption.
Qed.

Lemma C7_safety_factor_witness :
  (exists w r, calculateResults stress50 = Ok (w, r) /\ safetyFactor r = 5)
  /\ (exists w r, calculateResults unloaded = Ok (w, r)
                  /\ not_finite (safetyFactor r) = true)
  /\ (exists w r, calculateResults customUntouched = Ok (w, r)
                  /\ safetyFactor r = 0).
Proof.
  destruct (C7_safety_factor stress50) as (w50 & r50 & E50 & _ & _ & H50 & _).
  destruct (C7_safety_factor unloaded) as (w0 & r0 & E0 & _ & _ & _ & H0 & _).
  destruct (C7_safety_factor customUntouched)
    as (wc & rc & Ec & _ & _ & _ & _ & Hc).
  split; [|split].
  - exists w50, r50. split; [exact E50|]. apply H50; reflexivity.
  - exists w0, r0. split; [exact E0|]. apply H0. reflexivity.
  - exists wc, rc. split; [exact Ec|]. apply Hc; reflexivity.
Defined.

(** *** Coincident supports *)

Lemma simpleReactionStep_not_finite (s : State float) (R : float * float)
    (load : Load float) :
  leftSupport s = rightSupport s ->
  not_finite (fst (simpleReactionStep s R load)) = true
  /\ not_finite (snd (simpleReactionStep s R load)) = true.
Proof.
  intros Hs.
  assert (Z0 : zero_or_nan (rightSupportM s - leftSupportM s) = true).
  { unfold rightSupportM, leftSupportM. rewrite Hs. apply sub_diag. }
  destruct R as [r1 r2]. unfold simpleReactionStep.
  destruct (type load); cbn [fst snd]; split;
    apply add_not_finite_r, div_zero_or_nan, Z0.
Qed.

Lemma simple_reactions_not_finite (s : State float) :
  beamType s = SimpleBeam ->
  leftSupport s = rightSupport s ->
  loads s <> [] ->
  not_finite (R1 s) = true /\ not_finite (R2 s) = true.
Proof.
  intros Hb Hs Hl. unfold R1, R2, reactions. rewrite Hb.
  destruct (exists_last Hl) as (init & last & E). rewrite E.
  rewrite fold_left_app. cbn [fold_left].
  apply simpleReactionStep_not_finite, Hs.
Qed.

(** *** A section of height zero *)

Lemma rectangular_zero_height (s : State float) :
  beamCrossSection s = Rectangular ->
  zero_value (height s) = true ->
  is_nan (sectionModulus_ s) = true.
Proof.
  intros Hc Hh.
  assert (HM : zero_value (heightM s) = true).
  { apply div_zero_by_finite; [exact Hh|reflexivity]. }
  unfold sectionModulus_, momentOfInertia_. rewrite Hc.
  apply div_zero_zero.
  - apply div_zero_or_nan_l; [|reflexivity].
    apply mul_zero_or_nan_r, zero_value_zero_or_nan.
    change (zero_value (heightM s * (heightM s * heightM s)) = true).
    apply mul_zero_finite; [exact HM|].
    apply zero_value_finite, mul_zero_finite; [exact HM|].
    apply zero_value_finite, HM.
  - apply zero_value_zero_or_nan, div_zero_by_finite; [exact HM|reflexivity].
Qed.

(** C8: [calculateResults] returns for every state, none of its [toFixed]
    calls throws, and so does [calculateDiagrams]; each value that is NaN or
    an infinity is stored as it is;
    with both supports at one position and at least one load the maximum
    shear force stored is NaN or an infinity, and with a rectangular section
    of height zero the section modulus, the normal stress and the safety
    factor stored are NaN. *)
Theorem C8_returns_and_propagates (s : State float) :
  exists w r,
    calculateResults s = Ok (w, r)
    /\ (exists shear moment, calculateDiagrams s = Ok (shear, moment))
    /\ (propagated (beamWeightN s) w
        /\ propagated (maxShearForce_ s) (maxShearForce r)
        /\ propagated (maxBendingMoment_ s) (maxBendingMoment r)
        /\ propagated (maxNormalStress_ s) (maxNormalStress r)
        /\ propagated (maxShearStress_ s) (maxShearStress r)
        /\ propagated (materialProps_yieldStrength s / maxNormalStress_ s)
             (safetyFactor r)
        /\ propagated (beamLengthM s / 2) (centerOfGravity r)
        /\ propagated (momentOfInertia_ s) (momentOfInertia r)
        /\ propagated (sectionModulus_ s) (sectionModulus r))
    /\ (beamType s = SimpleBeam -> leftSupport s = rightSupport s ->
        loads s <> [] ->
        not_finite (maxShearForce r) = true)
    /\ (beamCrossSection s = Rectangular -> zero_value (height s) = true ->
        is_nan (sectionModulus r) = true
        /\ is_nan (maxNormalStress r) = true
        /\ is_nan (safetyFactor r) = true).
Proof.
  eexists. eexists. rewrite calculateResults_returns.
  split; [reflexivity|]. split; [|split; [|split]].
  - eexists. eexists. apply calculateDiagrams_returns.
  - unfold propagated. cbn -[beamWeightN maxShearForce_ maxBendingMoment_
      maxNormalStress_ maxShearStress_ materialProps_yieldStrength beamLengthM
      momentOfInertia_ sectionModulus_ not_finite Binary64.toFixed].
    repeat split; intros N; apply toFixed_not_finite; exact N.
  - intros Hb Hs Hl. cbn [maxShearForce].
    destruct (simple_reactions_not_finite s Hb Hs Hl) as [N1 N2].
    assert (N : not_finite (maxShearForce_ s) = true).
    { apply max_not_finite; apply abs_not_finite; assumption. }
    change (Number_toFixed (maxShearForce_ s) 2)
      with (Binary64.toFixed (maxShearForce_ s) 2).
    rewrite (toFixed_not_finite _ _ N). exact N.
  - intros Hc Hh. cbn [sectionModulus maxNormalStress safetyFactor].
    pose proof (rectangular_zero_height s Hc Hh) as NZ.
    assert (NS : is_nan (maxNormalStress_ s) = true).
    { apply div_nan_l, div_nan_r, NZ. }
    assert (NF : is_nan (materialProps_yieldStrength s / maxNormalStress_ s) = true).
    { apply div_nan_r, NS. }
    change (@Number_toFixed float _) with Binary64.toFixed.
    rewrite !toFixed_not_finite by (apply nan_not_finite; assumption).
    repeat split; assumption.
Qed.

Lemma C8_returns_and_propagates_witness :
  (exists w r, calculateResults coincidentSupports = Ok (w, r)
               /\ not_finite (maxShearForce r) = true)
  /\ (exists w r, calculateResults zeroHeight = Ok (w, r)
                  /\ is_nan (safetyFactor r) = true).
Proof.
  destruct (C8_returns_and_propagates coincidentSupports)
    as (w1 & r1 & E1 & _ & _ & H1 & _).
  destruct (C8_returns_and_propagates zeroHeight)
    as (w2 & r2 & E2 & _ & _ & _ & H2).
  split.
  - exists w1, r1. split; [exact E1|].
    apply H1; [reflexivity|reflexivity|discriminate].
  - exists w2, r2. split; [exact E2|].
    apply H2; reflexivity.
Defined.

End StressFacts.

(** ** Equilibrium of the reactions *)

Module Equilibrium.

Import Binary64 Exact E.
Open Scope Q_scope.

Lemma div_Some (p q : Q) : ~ q == 0 -> Exact.div (Some p) (Some q) = Some (p / q).
Proof.
  intros N. unfold Exact.div.
  destruct (Qeq_bool q 0) eqn:B; [|reflexivity].
  apply Qeq_bool_eq in B. contradiction.
Qed.

Lemma div_1000 (p : Q) : (Some p / lit 1000)%js = Some (p / inject_Z 1000).
Proof. apply div_Some. discriminate. Qed.

(** C3, where the statement fails in binary64: on the initial beam with the
    1000 N load moved to 70 mm, [R1] is 929.9999999999999 and [R2] is 70, and
    their sum is not 1000. *)
Lemma C3_counterexample :
  (PrimFloat.eqb (R1 F.loadAt70 + R2 F.loadAt70)%float 1000%float) = false
  /\ (R1 F.loadAt70 + R2 F.loadAt70)%float <> 1000%float.
Proof.
  split; [reflexivity|].
  apply Binary64Facts.Prim2SF_neq. vm_compute. discriminate.
Qed.

(** C3, amended: for a simple beam with one point load and
    [leftSupport < rightSupport], wherever the load and the supports are,
    [R1 + R2] is the magnitude when the operations are carried out without
    rounding. *)
Theorem C3_equilibrium_exact (s : State (option Q)) (l r P a : Q) (e : option (option Q)) :
  beamType s = SimpleBeam ->
  leftSupport s = Some l ->
  rightSupport s = Some r ->
  loads s = [{| type := PointLoad; magnitude := Some P; startPosition := Some a;
                endPosition := e |}] ->
  l < r ->
  exists q1 q2, R1 s = Some q1 /\ R2 s = Some q2 /\ q1 + q2 == P.
Proof.
  intros Hb Hl Hr Hloads Hlr.
  assert (N : ~ r / inject_Z 1000 - l / inject_Z 1000 == 0).
  { change (inject_Z 1000) with 1000. intros E0.
    assert (E1 : r == l).
    { setoid_replace r with ((r / 1000 - l / 1000) * 1000 + l) by field.
      rewrite E0. ring. }
    rewrite E1 in Hlr. apply (Qlt_irrefl l), Hlr. }
  unfold R1, R2, reactions. rewrite Hb, Hloads. cbn [fold_left].
  unfold simpleReactionStep. cbn [type magnitude startPosition].
  unfold rightSupportM, leftSupportM. rewrite Hl, Hr.
  rewrite !div_1000.
  cbn [num_add num_sub num_mul num_div Exact.number lift2 lit fst snd].
  rewrite !(div_Some _ _ N). cbn [lift2].
  eexists. eexists. split; [reflexivity|]. split; [reflexivity|].
  change (inject_Z 1000) with 1000. field.
  intros E0. apply (Qlt_irrefl l).
  setoid_replace l with (l + 0) at 2 by ring.
  rewrite <- E0. setoid_replace (l + (r - l)) with r by ring. exact Hlr.
Qed.

Lemma C3_equilibrium_exact_witness :
  exists q1 q2,
    R1 (onePointLoad 1000 0 1000 1000 70) = Some q1
    /\ R2 (onePointLoad 1000 0 1000 1000 70) = Some q2
    /\ q1 + q2 == 1000.
Proof.
  apply (C3_equilibrium_exact (onePointLoad 1000 0 1000 1000 70)
           0 1000 1000 70 None eq_refl eq_refl eq_refl eq_refl).
  reflexivity.
Defined.

End Equilibrium.

(** ** The sampled curves *)

Module Curves.

Import Binary64 F Binary64Facts Exact.

Lemma first_position (s : State float) :
  not_finite (beamLength s) = false -> sampleX s 0 = 0%float.
Proof.
  intros HL. unfold sampleX.
  change (Number_toFixed (lit (Z.of_nat 0) * dx s)%js 2)
    with (Binary64.toFixed (0 * (beamLength s / 99))%float 2).
  apply toFixed_zero, mul_zero_finite; [reflexivity|].
  apply div_99_finite, HL.
Qed.

(** In binary64 the last position is the beam length, for every whole
    number of mm up to 10 m. *)
Lemma last_position_whole_mm (s : State float) (n : Z) :
  (0 <= n <= 10000)%Z ->
  beamLength s = of_Z n ->
  (sampleX s 99 =? beamLength s)%float = true.
Proof.
  intros Hn HL. unfold sampleX.
  change (Number_toFixed (lit (Z.of_nat 99) * dx s)%js 2)
    with (Binary64.toFixed (99 * (beamLength s / 99))%float 2).
  rewrite HL.
  assert (All : forallb lastPositionIsLength
                  (map Z.of_nat (seq 0 (Z.to_nat 10001))) = true).
  { vm_compute. reflexivity. }
  rewrite forallb_forall in All.
  apply (All n). apply in_map_iff. exists (Z.to_nat n).
  split; [lia|]. apply in_seq. lia.
Qed.

(** Without a finite beam length the first position is NaN. *)
Lemma first_position_not_finite (s : State float) :
  not_finite (beamLength s) = true -> is_nan (sampleX s 0) = true.
Proof.
  intros HL. unfold sampleX.
  change (Number_toFixed (lit (Z.of_nat 0) * dx s)%js 2)
    with (Binary64.toFixed (0 * (beamLength s / 99))%float 2).
  assert (N : is_nan (0 * (beamLength s / 99))%float = true).
  { apply mul_zero_not_finite; [reflexivity|]. apply div_not_finite_l, HL. }
  rewrite toFixed_not_finite by (apply nan_not_finite, N). exact N.
Qed.

Open Scope Q_scope.

Lemma toFixed_same (p q : Q) (d : Z) :
  p == q -> same (Exact.toFixed (Some p) d) (Exact.toFixed (Some q) d).
Proof.
  intros E. unfold Exact.toFixed, same.
  assert (E1 : Qle_bool 0 p = Qle_bool 0 q) by (rewrite E; reflexivity).
  assert (E2 : Qfloor (Qabs p * inject_Z (10 ^ d) + (1 # 2))
               = Qfloor (Qabs q * inject_Z (10 ^ d) + (1 # 2))).
  { apply Qfloor_comp. rewrite E. reflexivity. }
  rewrite E1, E2. reflexivity.
Qed.

Lemma same_trans (a b c : option Q) : same a b -> same b c -> same a c.
Proof.
  destruct a, b, c; simpl; intros H1 H2; try contradiction; try exact I.
  rewrite H1. exact H2.
Qed.

Lemma exact_position (s : State (option Q)) (L : Q) (i : nat) :
  beamLength s = Some L ->
  same (sampleX s i)
       (Exact.toFixed (Some (inject_Z (Z.of_nat i) * (L / 99))) 2).
Proof.
  intros HL. unfold sampleX, dx. rewrite HL.
  change (Some L / (lit (Z.of_nat numPoints) - lit 1))%js
    with (Exact.div (Some L) (Some (inject_Z 100 - inject_Z 1))).
  rewrite Equilibrium.div_Some by discriminate.
  change (Number_toFixed (lit (Z.of_nat i) * Some (L / (inject_Z 100 - inject_Z 1)))%js 2)
    with (Exact.toFixed (Some (inject_Z (Z.of_nat i) * (L / (inject_Z 100 - inject_Z 1)))) 2).
  apply toFixed_same.
  change (inject_Z 100 - inject_Z 1) with (100 - 1). field.
Qed.

(** C5: for every state [calculateDiagrams] returns two curves of exactly
    100 points; sample [i] of either has position [i * dx], [dx =
    beamLength / 99], rounded to 2 decimals, so the points are evenly spaced
    from 0; the first position is 0 for every finite beam length; the last
    position is the beam length for every whole number of mm up to 10 m and,
    carried out without rounding, the beam length rounded to 2 decimals for
    every length. *)
Theorem C5_curve_samples :
  (forall s : State float,
      exists shear moment,
        calculateDiagrams s = Ok (shear, moment)
        /\ length shear = 100%nat /\ length moment = 100%nat
        /\ (forall i, (i < 100)%nat ->
            nth_error shear i = Some (sampleShear s i)
            /\ nth_error moment i = Some (sampleMoment s i)
            /\ x (sampleShear s i)
               = Binary64.toFixed (of_Z (Z.of_nat i) * (beamLength s / 99))%float 2
            /\ x (sampleMoment s i) = x (sampleShear s i))
        /\ (not_finite (beamLength s) = false ->
            x (sampleShear s 0) = 0%float /\ x (sampleMoment s 0) = 0%float)
        /\ (forall n, (0 <= n <= 10000)%Z -> beamLength s = of_Z n ->
            (x (sampleShear s 99) =? beamLength s)%float = true))
  /\ (forall (s : State (option Q)) (L : Q),
         beamLength s = Some L ->
         same (x (sampleShear s 0)) (Some 0)
         /\ same (x (sampleShear s 99)) (Exact.toFixed (Some L) 2)
         /\ x (sampleMoment s 99) = x (sampleShear s 99)).
Proof.
  split.
  - intros s. eexists. eexists. rewrite calculateDiagrams_returns.
    split; [reflexivity|].
    rewrite !length_map, length_seq.
    split; [reflexivity|]. split; [reflexivity|]. split.
    + intros i Hi. rewrite !nth_error_map_seq by exact Hi.
      repeat split; reflexivity.
    + split.
      * intros HL. split; apply first_position, HL.
      * intros n Hn HL. apply (last_position_whole_mm s n Hn HL).
  - intros s L HL. split; [|split].
    + apply same_trans with (1 := exact_position s L 0 HL).
      apply same_trans with (Exact.toFixed (Some 0) 2).
      * apply toFixed_same. change (inject_Z (Z.of_nat 0)) with 0. ring.
      * reflexivity.
    + apply same_trans with (1 := exact_position s L 99 HL).
      apply toFixed_same. change (inject_Z (Z.of_nat 99)) with 99. field.
    + reflexivity.
Qed.

Lemma C5_curve_samples_witness :
  (x (sampleShear initialState 0) = 0%float
   /\ x (sampleMoment initialState 0) = 0%float)
  /\ (x (sampleShear initialState 99) =? beamLength initialState)%float = true
  /\ same (x (sampleShear (E.onePointLoad 1000 0 1000 1000 500) 99))
          (Exact.toFixed (Some 1000) 2).
Proof.
  destruct (proj1 C5_curve_samples initialState)
    as (shear & moment & _ & _ & _ & _ & H0 & H99).
  split; [|split].
  - apply H0. reflexivity.
  - apply (H99 1000%Z); [lia|reflexivity].
  - apply (proj2 C5_curve_samples (E.onePointLoad 1000 0 1000 1000 500) 1000).
    reflexivity.
Defined.

(** On the initial beam, in binary64, the last position is 1000. *)
Lemma initial_last_position :
  x (sampleShear initialState 99) = 1000%float.
Proof. reflexivity. Qed.

End Curves.

(** ** The load list handlers *)

Section HandlerFacts.

Context {num : Type} `{JSNumber num}.

Lemma filterIndexed_remove {A} (l : list A) (k index : nat) :
  filterIndexed (fun _ i => negb (i =? index)%nat) l k
  = if (index <? k)%nat then l
    else firstn (index - k) l ++ skipn (S (index - k)) l.
Proof.
  revert k. induction l as [|a l IH]; intros k.
  - destruct (index <? k)%nat; [reflexivity|].
    rewrite firstn_nil, skipn_nil. reflexivity.
  - cbn [filterIndexed]. rewrite IH.
    destruct (Nat.eqb_spec k index) as [E|N]; cbn [negb].
    + subst k. rewrite Nat.ltb_irrefl.
      assert (L : (index <? S index)%nat = true) by (apply Nat.ltb_lt; lia).
      rewrite L, Nat.sub_diag. reflexivity.
    + destruct (Nat.ltb_spec index k) as [Lt|Ge].
      * assert (L : (index <? S k)%nat = true) by (apply Nat.ltb_lt; lia).
        rewrite L. reflexivity.
      * assert (L : (index <? S k)%nat = false) by (apply Nat.ltb_ge; lia).
        rewrite L.
        replace (index - k)%nat with (S (index - S k)) by lia.
        reflexivity.
Qed.

Lemma mapIndexed_length {A B} (f : A -> nat -> B) (l : list A) (k : nat) :
  length (mapIndexed f l k) = length l.
Proof.
  revert k. induction l as [|a l IH]; intros k; cbn [mapIndexed length].
  - reflexivity.
  - rewrite IH. reflexivity.
Qed.

Lemma mapIndexed_nth_error {A B} (f : A -> nat -> B) (l : list A) (k j : nat) :
  nth_error (mapIndexed f l k) j
  = option_map (fun a => f a (k + j)%nat) (nth_error l j).
Proof.
  revert k j. induction l as [|a l IH]; intros k j.
  - destruct j; reflexivity.
  - destruct j as [|j]; cbn [mapIndexed nth_error option_map].
    + rewrite Nat.add_0_r. reflexivity.
    + rewrite IH. replace (S k + j)%nat with (k + S j)%nat by lia. reflexivity.
Qed.

Lemma removeLoad_loads (s : State num) (index : nat) :
  loads (removeLoad s index)
  = firstn index (loads s) ++ skipn (S index) (loads s).
Proof.
  unfold removeLoad. cbn [loads setLoads].
  rewrite filterIndexed_remove. cbn. rewrite Nat.sub_0_r. reflexivity.
Qed.

Lemma removeLoad_length (s : State num) (index : nat) :
  length (loads (removeLoad s index))
  = (if (index <? length (loads s))%nat then length (loads s) - 1
     else length (loads s))%nat.
Proof.
  rewrite removeLoad_loads, length_app, length_firstn, length_skipn.
  destruct (Nat.ltb_spec index (length (loads s))); lia.
Qed.

(** X1: [removeLoad] drops the load at [index] and keeps the others in
    order; an index past the end leaves the list as it is. *)
Theorem X1_removeLoad (s : State num) (index : nat) :
  loads (removeLoad s index)
  = firstn index (loads s) ++ skipn (S index) (loads s)
  /\ length (loads (removeLoad s index))
     = (if (index <? length (loads s))%nat then length (loads s) - 1
        else length (loads s))%nat
  /\ (forall j, nth_error (loads (removeLoad s index)) j
                = nth_error (loads s) (if (j <? index)%nat then j else S j)).
Proof.
  split; [apply removeLoad_loads|]. split; [apply removeLoad_length|].
  intros j. rewrite removeLoad_loads.
  destruct (Nat.ltb_spec j index) as [Lt|Ge].
  - destruct (Nat.le_gt_cases (length (loads s)) j) as [Out|In_].
    + rewrite (proj2 (nth_error_None (loads s) j)) by exact Out.
      apply nth_error_None.
      rewrite length_app, length_firstn, length_skipn. lia.
    + rewrite nth_error_app1 by (rewrite length_firstn; lia).
      rewrite nth_error_firstn.
      apply Nat.ltb_lt in Lt. rewrite Lt. reflexivity.
  - destruct (Nat.le_gt_cases (length (loads s)) index) as [Out|In_].
    + rewrite (proj2 (nth_error_None (loads s) (S j))) by lia.
      apply nth_error_None.
      rewrite length_app, length_firstn, length_skipn. lia.
    + rewrite nth_error_app2 by (rewrite length_firstn; lia).
      rewrite length_firstn, nth_error_skipn.
      f_equal. lia.
Qed.

(** X2: [updateLoad] keeps the number of loads, replaces the load at [index]
    by the merge with the update and leaves every other load as it is; an
    index past the end changes nothing.  A field the update does not carry
    keeps its value: switching the type leaves [endPosition] as it was. *)
Theorem X2_updateLoad (s : State num) (index : nat) (u : PartialLoad num) :
  length (loads (updateLoad s index u)) = length (loads s)
  /\ (forall j, nth_error (loads (updateLoad s index u)) j
                = option_map (fun load => if (j =? index)%nat then mergeLoad load u
                                          else load)
                    (nth_error (loads s) j))
  /\ (forall (load : Load num) (t : LoadType),
         endPosition (mergeLoad load (typeUpdate t)) = endPosition load
                     /\ type (mergeLoad load (typeUpdate t)) = t
                     /\ magnitude (mergeLoad load (typeUpdate t)) = magnitude load
                     /\ startPosition (mergeLoad load (typeUpdate t))
                        = startPosition load).
Proof.
  split; [|split].
  - unfold updateLoad. cbn [loads setLoads]. apply mapIndexed_length.
  - intros j. unfold updateLoad. cbn [loads setLoads].
    rewrite mapIndexed_nth_error. reflexivity.
  - intros load t. repeat split; reflexivity.
Qed.

Lemma addLoad_length (s : State num) :
  length (loads (addLoad s))
  = (if (length (loads s) <? 3)%nat then S (length (loads s))
     else length (loads s)).
Proof.
  unfold addLoad. destruct (length (loads s) <? 3)%nat; [|reflexivity].
  cbn [loads setLoads]. rewrite length_app. cbn [length]. lia.
Qed.

Lemma handle_length (s : State num) (a : Action num) :
  (length (loads s) <= 3 -> length (loads (handle s a)) <= 3)%nat
  /\ (removeRendered a = true -> 1 <= length (loads s) ->
      1 <= length (loads (handle s a)))%nat.
Proof.
  destruct a as [|index|index u]; cbn [handle].
  - rewrite addLoad_length.
    destruct (Nat.ltb_spec (length (loads s)) 3); split; intros; lia.
  - rewrite removeLoad_length. split.
    + intros Hle. destruct (index <? length (loads s))%nat; lia.
    + intros Hr H1. destruct index as [|index]; [discriminate Hr|].
      destruct (Nat.ltb_spec (S index) (length (loads s))); lia.
  - unfold updateLoad. cbn [loads setLoads]. rewrite mapIndexed_length.
    split; intros; assumption.
Qed.

End HandlerFacts.

Section HandlerSequences.

Context {num : Type} `{JSNumber num}.

(** X3: whatever handlers are called, in whatever order, a list of at most
    3 loads stays a list of at most 3 loads; and as long as load 0 is never
    removed (the form has no 'Remove' button for it) the list does not
    become empty. *)
Theorem X3_handlers_keep_load_count (s : State num) (actions : list (Action num)) :
  ((length (loads s) <= 3)%nat ->
   (length (loads (fold_left handle actions s)) <= 3)%nat)
  /\ (forallb removeRendered actions = true ->
      (1 <= length (loads s))%nat ->
      (1 <= length (loads (fold_left handle actions s)))%nat).
Proof.
  revert s. induction actions as [|a actions IH]; intros s.
  - split; intros; assumption.
  - cbn [fold_left forallb].
    destruct (handle_length s a) as [Hmax Hmin].
    destruct (IH (handle s a)) as [IHmax IHmin].
    split.
    + intros Hle. apply IHmax, Hmax, Hle.
    + intros Hr H1. apply andb_prop in Hr. destruct Hr as [Ha Hr].
      apply IHmin; [exact Hr|]. apply Hmin; assumption.
Qed.

Lemma mapIndexed_app {A B} (f : A -> nat -> B) (l1 l2 : list A) (k : nat) :
  mapIndexed f (l1 ++ l2) k
  = mapIndexed f l1 k ++ mapIndexed f l2 (k + length l1).
Proof.
  revert k. induction l1 as [|a l1 IH]; intros k; cbn [mapIndexed app length].
  - rewrite Nat.add_0_r. reflexivity.
  - rewrite IH. replace (S k + length l1)%nat with (k + S (length l1))%nat by lia.
    reflexivity.
Qed.

Lemma mapIndexed_below {A} (g : A -> A) (l : list A) (k index : nat) :
  (k + length l <= index)%nat ->
  mapIndexed (fun a i => if (i =? index)%nat then g a else a) l k = l.
Proof.
  revert k. induction l as [|a l IH]; intros k Hk; cbn [mapIndexed].
  - reflexivity.
  - cbn [length] in Hk.
    destruct (Nat.eqb_spec k index) as [E|N]; [lia|].
    rewrite IH by lia. reflexivity.
Qed.

(** The loads after 'Add Load' and switching the new load to 'Uniform
    Load'. *)
Lemma add_then_switch_to_uniform (s : State num) :
  (length (loads s) < 3)%nat ->
  loads (updateLoad (addLoad s) (length (loads s)) (typeUpdate UniformLoad))
  = loads s ++ [{| type := UniformLoad; magnitude := lit 1000;
                   startPosition := num_div (beamLength s) (lit 2);
                   endPosition := None |}].
Proof.
  intros Hlt. unfold addLoad.
  apply Nat.ltb_lt in Hlt. rewrite Hlt.
  unfold updateLoad. cbn [loads setLoads].
  rewrite mapIndexed_app, mapIndexed_below by lia.
  cbn [mapIndexed Nat.add]. rewrite Nat.eqb_refl. reflexivity.
Qed.

(** In a cantilever [R2] stays 0. *)
Lemma cantilever_R2 (s : State num) :
  beamType s = CantileverBeam -> R2 s = lit 0.
Proof.
  intros Hb. unfold R2, reactions. rewrite Hb.
  generalize (lit 0) at 1. generalize (loads s).
  intros l. induction l as [|load l IH]; intros a; cbn [fold_left].
  - reflexivity.
  - unfold cantileverReactionStep at 2. destruct (type load); apply IH.
Qed.

Lemma fold_left_reaches {A B} (P : A -> Prop) (f : A -> B -> A) (bad : B)
    (l : list B) (a : A) :
  (forall a0 b, P a0 -> P (f a0 b)) ->
  (forall a0, P (f a0 bad)) ->
  In bad l -> P (fold_left f l a).
Proof.
  intros Keep Bad. revert a.
  assert (Stay : forall l0 a0, P a0 -> P (fold_left f l0 a0)).
  { intros l0. induction l0 as [|b l0 IH0]; intros a0 Pa; cbn [fold_left].
    - exact Pa.
    - apply IH0, Keep, Pa. }
  induction l as [|b l IH]; intros a Hin; [contradiction|].
  cbn [fold_left]. destruct Hin as [E|Hin].
  - subst b. apply Stay, Bad.
  - apply IH, Hin.
Qed.

End HandlerSequences.

(** ** A uniform load without an end position; the maximum shear force *)

Module MissingEnd.

Import Binary64 F Binary64Facts.
Open Scope float_scope.

Lemma is_nan_eq (v : float) : is_nan v = true -> v = nan.
Proof.
  rewrite is_nan_spec. intros E. apply Prim2SF_inj.
  destruct (Prim2SF v); try discriminate E. reflexivity.
Qed.

Lemma nan_add_l (a b : float) : is_nan a = true -> is_nan (a + b) = true.
Proof.
  rewrite !is_nan_spec, add_spec.
  destruct (Prim2SF a); intros E; try discriminate E; reflexivity.
Qed.

Lemma nan_add_r (a b : float) : is_nan b = true -> is_nan (a + b) = true.
Proof.
  rewrite !is_nan_spec, add_spec.
  destruct (Prim2SF b); intros E; try discriminate E;
    destruct (Prim2SF a); reflexivity.
Qed.

Lemma nan_sub_l (a b : float) : is_nan a = true -> is_nan (a - b) = true.
Proof.
  rewrite !is_nan_spec, sub_spec.
  destruct (Prim2SF a); intros E; try discriminate E; reflexivity.
Qed.

Lemma nan_sub_r (a b : float) : is_nan b = true -> is_nan (a - b) = true.
Proof.
  rewrite !is_nan_spec, sub_spec.
  destruct (Prim2SF b); intros E; try discriminate E;
    destruct (Prim2SF a); reflexivity.
Qed.

Lemma nan_mul_l (a b : float) : is_nan a = true -> is_nan (a * b) = true.
Proof.
  rewrite !is_nan_spec, mul_spec.
  destruct (Prim2SF a); intros E; try discriminate E; reflexivity.
Qed.

Lemma nan_mul_r (a b : float) : is_nan b = true -> is_nan (a * b) = true.
Proof.
  rewrite !is_nan_spec, mul_spec.
  destruct (Prim2SF b); intros E; try discriminate E;
    destruct (Prim2SF a); reflexivity.
Qed.

Lemma nan_abs (a : float) : is_nan a = true -> is_nan (abs a) = true.
Proof.
  rewrite !is_nan_spec, abs_spec.
  destruct (Prim2SF a); intros E; try discriminate E; reflexivity.
Qed.

Lemma nan_max_l (a b : float) : is_nan a = true -> is_nan (Binary64.max a b) = true.
Proof. intros E. unfold Binary64.max. rewrite E. reflexivity. Qed.

Lemma nan_max_r (a b : float) : is_nan b = true -> is_nan (Binary64.max a b) = true.
Proof. intros E. unfold Binary64.max. rewrite E, orb_true_r. reflexivity. Qed.

Lemma nan_toFixed (v : float) (d : Z) :
  is_nan v = true -> is_nan (Binary64.toFixed v d) = true.
Proof.
  intros E. rewrite toFixed_not_finite by (apply nan_not_finite, E). exact E.
Qed.

Section OneLoad.

Variable s : State float.
Variable bad : Load float.
Hypothesis bad_type : type bad = UniformLoad.
Hypothesis bad_end : endPosition bad = None.

Lemma missing_end_is_nan : is_nan (endPosition_ bad) = true.
Proof. unfold endPosition_. rewrite bad_end. reflexivity. Qed.

Lemma missing_end_R1 : In bad (loads s) -> is_nan (R1 s) = true.
Proof.
  intros Hin. unfold R1, reactions.
  pose proof missing_end_is_nan as N.
  destruct (beamType s).
  - apply (fold_left_reaches (fun R => is_nan (fst R) = true)
             (simpleReactionStep s) bad); [| |exact Hin].
    + intros [r1 r2] load Hr. unfold simpleReactionStep.
      destruct (type load); cbn [fst] in *; apply nan_add_l, Hr.
    + intros [r1 r2]. unfold simpleReactionStep. rewrite bad_type. cbn [fst].
      apply nan_add_r, div_nan_l, nan_mul_l, nan_mul_r, nan_sub_l, div_nan_l, N.
  - apply (fold_left_reaches (fun R => is_nan (fst R) = true)
             cantileverReactionStep bad); [| |exact Hin].
    + intros [r1 r2] load Hr. unfold cantileverReactionStep.
      destruct (type load); cbn [fst] in *; apply nan_add_l, Hr.
    + intros [r1 r2]. unfold cantileverReactionStep. rewrite bad_type. cbn [fst].
      apply nan_add_r, nan_mul_r, div_nan_l, nan_sub_l, N.
Qed.

Lemma missing_end_maxBendingMoment :
  In bad (loads s) -> is_nan (maxBendingMoment_ s) = true.
Proof.
  intros Hin. pose proof (missing_end_R1 Hin) as NR.
  pose proof missing_end_is_nan as N.
  unfold maxBendingMoment_. destruct (beamType s).
  - apply (fold_left_reaches (fun m => is_nan m = true)
             (simpleMomentStep s) bad); [| |exact Hin].
    + intros m load Hm. unfold simpleMomentStep.
      destruct (type load); repeat apply nan_max_l; exact Hm.
    + intros m. unfold simpleMomentStep. rewrite bad_type.
      apply nan_max_r. unfold momentAtEnd. apply nan_sub_l, nan_mul_l, NR.
  - apply (fold_left_reaches (fun m => is_nan m = true)
             (cantileverMomentStep s) bad); [| |exact Hin].
    + intros m load Hm. unfold cantileverMomentStep. apply nan_max_l, Hm.
    + intros m. unfold cantileverMomentStep, momentAtFixed. rewrite bad_type.
      apply nan_max_r, nan_mul_l, nan_mul_r, div_nan_l, nan_sub_l, N.
Qed.

(** What [calculateResults] stores when the list has such a load. *)
Lemma missing_end_results :
  In bad (loads s) ->
  exists w r,
    calculateResults s = Ok (w, r)
    /\ is_nan (maxShearForce r) = true
    /\ is_nan (maxBendingMoment r) = true
    /\ is_nan (maxNormalStress r) = true
    /\ is_nan (maxShearStress r) = true
    /\ is_nan (safetyFactor r) = true.
Proof.
  intros Hin. pose proof (missing_end_R1 Hin) as NR.
  pose proof (missing_end_maxBendingMoment Hin) as NM.
  assert (NV : is_nan (maxShearForce_ s) = true).
  { unfold maxShearForce_. apply nan_max_l, nan_abs, NR. }
  assert (NS : is_nan (maxNormalStress_ s) = true).
  { unfold maxNormalStress_. apply div_nan_l, div_nan_l, NM. }
  eexists. eexists. rewrite calculateResults_returns.
  split; [reflexivity|].
  cbn [maxShearForce maxBendingMoment maxNormalStress maxShearStress safetyFactor].
  change (@Number_toFixed float _) with Binary64.toFixed.
  repeat split; apply nan_toFixed.
  - exact NV.
  - exact NM.
  - exact NS.
  - unfold maxShearStress_. apply div_nan_l, div_nan_l, nan_mul_r, NV.
  - apply div_nan_r, NS.
Qed.

End OneLoad.

(** X4: on either beam type, when some load of the list is a 'Uniform Load'
    whose end position is absent, the maximum shear force, the maximum
    bending moment, both stresses and the safety factor stored are all NaN,
    whatever the other loads are. *)
Theorem X4_missing_end_position (s : State float) (load : Load float) :
  In load (loads s) ->
  type load = UniformLoad ->
  endPosition load = None ->
  exists w r,
    calculateResults s = Ok (w, r)
    /\ is_nan (maxShearForce r) = true
    /\ is_nan (maxBendingMoment r) = true
    /\ is_nan (maxNormalStress r) = true
    /\ is_nan (maxShearStress r) = true
    /\ is_nan (safetyFactor r) = true.
Proof.
  intros Hin Ht He. exact (missing_end_results s load Ht He Hin).
Qed.

Lemma X4_missing_end_position_witness :
  exists w r,
    calculateResults uniformWithoutEnd = Ok (w, r)
    /\ is_nan (maxShearForce r) = true
    /\ is_nan (maxBendingMoment r) = true
    /\ is_nan (maxNormalStress r) = true
    /\ is_nan (maxShearStress r) = true
    /\ is_nan (safetyFactor r) = true.
Proof.
  apply (X4_missing_end_position uniformWithoutEnd
           {| type := UniformLoad; magnitude := 1000; startPosition := 500;
              endPosition := None |}).
  - left. reflexivity.
  - reflexivity.
  - reflexivity.
Defined.

(** X5: from a state with fewer than 3 loads, 'Add Load' appends a 1000 N
    point load at half the beam length; switching that load to 'Uniform
    Load' changes its type only, its end position stays absent, and the
    maximum bending moment stored becomes NaN. *)
Theorem X5_add_then_switch_to_uniform (s : State float) :
  (length (loads s) < 3)%nat ->
  loads (addLoad s) = loads s ++ [pointLoad 1000 (beamLength s / 2)]
  /\ loads (updateLoad (addLoad s) (length (loads s)) (typeUpdate UniformLoad))
     = loads s ++ [{| type := UniformLoad; magnitude := 1000;
                      startPosition := beamLength s / 2; endPosition := None |}]
  /\ exists w r,
       calculateResults
         (updateLoad (addLoad s) (length (loads s)) (typeUpdate UniformLoad))
       = Ok (w, r)
       /\ is_nan (maxBendingMoment r) = true.
Proof.
  intros Hlt.
  pose proof (add_then_switch_to_uniform s Hlt) as E.
  split; [|split].
  - unfold addLoad. apply Nat.ltb_lt in Hlt. rewrite Hlt. reflexivity.
  - exact E.
  - destruct (missing_end_results
                (updateLoad (addLoad s) (length (loads s)) (typeUpdate UniformLoad))
                {| type := UniformLoad; magnitude := 1000;
                   startPosition := beamLength s / 2; endPosition := None |}
                eq_refl eq_refl)
      as (w & r & Er & _ & NM & _).
    + rewrite E. apply in_or_app. right. left. reflexivity.
    + exists w, r. split; [exact Er|exact NM].
Qed.

Lemma X5_add_then_switch_to_uniform_witness :
  exists w r,
    calculateResults
      (updateLoad (addLoad initialState) 1 (typeUpdate UniformLoad)) = Ok (w, r)
    /\ is_nan (maxBendingMoment r) = true.
Proof.
  assert (Hlt : (length (loads initialState) < 3)%nat) by (cbn; lia).
  exact (proj2 (proj2 (X5_add_then_switch_to_uniform initialState Hlt))).
Defined.

Lemma X3_handlers_keep_load_count_witness :
  (1 <= length (loads (fold_left handle
                         [AddLoad; AddLoad; AddLoad; RemoveLoad 1;
                          UpdateLoad 0 (typeUpdate UniformLoad); AddLoad]
                         initialState)) <= 3)%nat.
Proof.
  split.
  - apply (proj2 (X3_handlers_keep_load_count initialState _)).
    + reflexivity.
    + cbn. lia.
  - apply (proj1 (X3_handlers_keep_load_count initialState _)).
    cbn. lia.
Defined.

(** *** The maximum shear force *)

Lemma abs_nan_or_nonneg (a : float) : nan_or_nonneg (abs a) = true.
Proof.
  unfold nan_or_nonneg. rewrite is_nan_spec, leb_0_spec, abs_spec.
  destruct (Prim2SF a) as [sg|sg| |sg m e]; reflexivity.
Qed.

Lemma max_abs_zero (a : float) : Binary64.max (abs a) 0 = abs a.
Proof.
  unfold Binary64.max.
  destruct (is_nan (abs a)) eqn:N.
  - cbn [orb]. symmetry. apply is_nan_eq, N.
  - change (is_nan 0) with false. cbn [orb].
    assert (L : (abs a <? 0) = false).
    { rewrite ltb_spec, Prim2SF_0, abs_spec.
      destruct (Prim2SF a) as [sg|sg| |sg m e]; reflexivity. }
    rewrite L.
    destruct (0 <? abs a) eqn:G; [reflexivity|].
    destruct (get_sign (abs a)); [|reflexivity].
    apply Prim2SF_inj. rewrite Prim2SF_0.
    rewrite ltb_spec, Prim2SF_0 in G. rewrite is_nan_spec in N.
    rewrite abs_spec in *.
    destruct (Prim2SF a) as [sg|sg| |sg m e]; try discriminate G;
      try discriminate N; reflexivity.
Qed.

(** X6: for every state the maximum shear force computed,
    [Math.max(|R1|, |R2|)], is at least 0 or NaN, never below 0; on a
    cantilever [R2] is 0 and the maximum shear force is [|R1|]. *)
Theorem X6_maxShearForce (s : State float) :
  nan_or_nonneg (maxShearForce_ s) = true
  /\ (maxShearForce_ s <? 0) = false
  /\ (beamType s = CantileverBeam ->
      R2 s = 0 /\ maxShearForce_ s = abs (R1 s)).
Proof.
  assert (N : nan_or_nonneg (maxShearForce_ s) = true).
  { unfold maxShearForce_. apply max_nan_or_nonneg, abs_nan_or_nonneg. }
  split; [exact N|]. split.
  - unfold nan_or_nonneg in N. rewrite is_nan_spec, leb_0_spec in N.
    rewrite ltb_spec, Prim2SF_0.
    destruct (Prim2SF (maxShearForce_ s)) as [sg|sg| |sg m e];
      try destruct sg; try reflexivity; discriminate N.
  - intros Hb. pose proof (cantilever_R2 s Hb) as E2.
    split; [exact E2|].
    unfold maxShearForce_. rewrite E2.
    change (Math_max (Math_abs (R1 s)) (Math_abs (lit 0)))
      with (Binary64.max (abs (R1 s)) 0).
    apply max_abs_zero.
Qed.

Lemma X6_maxShearForce_witness :
  R2 cantileverTwoLoads = 0
  /\ maxShearForce_ cantileverTwoLoads = abs (R1 cantileverTwoLoads).
Proof.
  apply (proj2 (proj2 (X6_maxShearForce cantileverTwoLoads))). reflexivity.
Defined.

End MissingEnd.

(** ** Exact arithmetic: reactions and curves for any list of loads *)

Module ExactFacts.

Import Exact QLoads.
Open Scope Q_scope.

Lemma div_exact (p q : Q) : ~ q == 0 -> Exact.div (Some p) (Some q) = Some (p / q).
Proof.
  intros N. unfold Exact.div.
  destruct (Qeq_bool q 0) eqn:B; [|reflexivity].
  apply Qeq_bool_eq in B. contradiction.
Qed.

Lemma div_const (p : Q) (z : Z) :
  z <> 0%Z -> (Some p / lit z)%js = Some (p / inject_Z z).
Proof.
  intros Hz. apply div_exact. intros E. apply Hz.
  unfold Qeq in E. cbn in E. lia.
Qed.

Lemma span_m (l r : Q) : ~ r == l -> ~ r / 1000 - l / 1000 == 0.
Proof.
  intros N E0. apply N.
  setoid_replace r with ((r / 1000 - l / 1000) * 1000 + l) by field.
  rewrite E0. ring.
Qed.

Lemma span_mm (l r : Q) : ~ r == l -> ~ r - l == 0.
Proof.
  intros N E0. apply N.
  setoid_replace r with ((r - l) + l) by ring.
  rewrite E0. ring.
Qed.

Section Steps.

Variable s : State (option Q).
Variables l r : Q.
Hypothesis left_is : leftSupport s = Some l.
Hypothesis right_is : rightSupport s = Some r.
Hypothesis apart : ~ r == l.

Lemma simpleReactionStep_exact (a1 a2 : Q) (q : QLoad) :
  simpleReactionStep s (Some a1, Some a2) (toLoad q)
  = (Some (a1 + r1M l r q), Some (a2 + r2M l r q)).
Proof.
  pose proof (span_m l r apart) as N.
  unfold simpleReactionStep, rightSupportM, leftSupportM, endPosition_.
  rewrite left_is, right_is.
  destruct q as [P a|w a b]; cbn [toLoad type magnitude startPosition endPosition];
    rewrite !div_const by discriminate;
    change (inject_Z 1000) with 1000; change (inject_Z 2) with 2;
    cbn [num_add num_sub num_mul num_div Exact.number lift2 lit];
    rewrite ?(div_const _ 2) by discriminate; change (inject_Z 2) with 2;
    cbn [lift2]; rewrite !(div_exact _ _ N); reflexivity.
Qed.

Lemma diagramSimpleReactionStep_exact (a1 a2 : Q) (q : QLoad) :
  diagramSimpleReactionStep s (Some a1, Some a2) (toLoad q)
  = (Some (a1 + r1MM l r q), Some (a2 + r2MM l r q)).
Proof.
  pose proof (span_mm l r apart) as N.
  unfold diagramSimpleReactionStep, endPosition_.
  rewrite left_is, right_is.
  destruct q as [P a|w a b]; cbn [toLoad type magnitude startPosition endPosition];
    cbn [num_add num_sub num_mul Exact.number lift2];
    rewrite ?(div_const _ 2) by discriminate; change (inject_Z 2) with 2;
    cbn [num_sub num_mul Exact.number lift2];
    change (@num_div (option Q) Exact.number) with Exact.div;
    rewrite !(div_exact _ _ N); reflexivity.
Qed.

End Steps.

(** *** Sums *)

Lemma sumQ_nil : sumQ [] = 0.
Proof. reflexivity. Qed.

Lemma sumQ_cons (a : Q) (l : list Q) : sumQ (a :: l) = a + sumQ l.
Proof. reflexivity. Qed.

Lemma sumQ_map_ext {A} (f g : A -> Q) (l : list A) :
  (forall a, In a l -> f a == g a) -> sumQ (map f l) == sumQ (map g l).
Proof.
  induction l as [|a l IH]; intros E; cbn [map].
  - reflexivity.
  - rewrite !sumQ_cons.
    rewrite IH by (intros; apply E; right; assumption).
    rewrite (E a) by (left; reflexivity). reflexivity.
Qed.

Lemma sumQ_map_plus {A} (f g : A -> Q) (l : list A) :
  sumQ (map (fun a => f a + g a) l) == sumQ (map f l) + sumQ (map g l).
Proof.
  induction l as [|a l IH]; cbn [map].
  - rewrite !sumQ_nil. ring.
  - rewrite !sumQ_cons, IH. ring.
Qed.

Lemma sumQ_map_scale {A} (k : Q) (f : A -> Q) (l : list A) :
  sumQ (map (fun a => k * f a) l) == k * sumQ (map f l).
Proof.
  induction l as [|a l IH]; cbn [map].
  - rewrite !sumQ_nil. ring.
  - rewrite !sumQ_cons, IH. ring.
Qed.

Lemma sumQ_map_zero {A} (f : A -> Q) (l : list A) :
  (forall a, In a l -> f a == 0) -> sumQ (map f l) == 0.
Proof.
  induction l as [|a l IH]; intros E; cbn [map].
  - reflexivity.
  - rewrite sumQ_cons.
    rewrite IH by (intros; apply E; right; assumption).
    rewrite (E a) by (left; reflexivity). ring.
Qed.

(** *** The passes over the loads *)

Lemma fold_pair (step : option Q * option Q -> Load (option Q) -> option Q * option Q)
    (f1 f2 : QLoad -> Q) (qs : list QLoad) :
  (forall a1 a2 q, step (Some a1, Some a2) (toLoad q)
                   = (Some (a1 + f1 q), Some (a2 + f2 q))) ->
  forall a1 a2,
  exists v1 v2,
    fold_left step (map toLoad qs) (Some a1, Some a2) = (Some v1, Some v2)
    /\ v1 == a1 + sumQ (map f1 qs)
    /\ v2 == a2 + sumQ (map f2 qs).
Proof.
  intros Hstep. induction qs as [|q qs IH]; intros a1 a2; cbn [map fold_left].
  - exists a1, a2. split; [reflexivity|]. rewrite sumQ_nil. split; ring.
  - rewrite Hstep.
    destruct (IH (a1 + f1 q) (a2 + f2 q)) as (v1 & v2 & E & E1 & E2).
    exists v1, v2. split; [exact E|].
    rewrite !sumQ_cons, E1, E2. split; ring.
Qed.

Lemma fold_single (step : option Q -> Load (option Q) -> option Q)
    (f : QLoad -> Q) (qs : list QLoad) :
  (forall a q, exists v, step (Some a) (toLoad q) = Some v /\ v == a - f q) ->
  forall a,
  exists v,
    fold_left step (map toLoad qs) (Some a) = Some v
    /\ v == a - sumQ (map f qs).
Proof.
  intros Hstep. induction qs as [|q qs IH]; intros a; cbn [map fold_left].
  - exists a. split; [reflexivity|]. rewrite sumQ_nil. ring.
  - destruct (Hstep a q) as (v0 & E0 & V0). rewrite E0.
    destruct (IH v0) as (v & E & V).
    exists v. split; [exact E|].
    rewrite sumQ_cons, V, V0. ring.
Qed.

Ltac span_side N N' := repeat split; first [exact N | exact N'].

Section SimpleBeamExact.

Variable s : State (option Q).
Variables l r : Q.
Variable qs : list QLoad.
Hypothesis simple : beamType s = SimpleBeam.
Hypothesis left_is : leftSupport s = Some l.
Hypothesis right_is : rightSupport s = Some r.
Hypothesis loads_are : loads s = map toLoad qs.
Hypothesis apart : ~ r == l.

Lemma reactions_exact :
  exists v1 v2,
    R1 s = Some v1 /\ R2 s = Some v2
    /\ v1 == sumQ (map (r1M l r) qs) /\ v2 == sumQ (map (r2M l r) qs).
Proof.
  unfold R1, R2, reactions. rewrite simple, loads_are.
  destruct (fold_pair (simpleReactionStep s) (r1M l r) (r2M l r) qs
              (simpleReactionStep_exact s l r left_is right_is apart) 0 0)
    as (v1 & v2 & E & E1 & E2).
  change (lit 0, lit 0) with (Some 0, Some 0). rewrite E.
  exists v1, v2. split; [reflexivity|]. split; [reflexivity|].
  rewrite E1, E2. split; ring.
Qed.

Lemma diagramReactions_exact :
  exists v1 v2,
    diagramReactions s = (Some v1, Some v2)
    /\ v1 == sumQ (map (r1MM l r) qs) /\ v2 == sumQ (map (r2MM l r) qs).
Proof.
  unfold diagramReactions. rewrite simple, loads_are.
  destruct (fold_pair (diagramSimpleReactionStep s) (r1MM l r) (r2MM l r) qs
              (diagramSimpleReactionStep_exact s l r left_is right_is apart) 0 0)
    as (v1 & v2 & E & E1 & E2).
  change (lit 0, lit 0) with (Some 0, Some 0). rewrite E.
  exists v1, v2. split; [reflexivity|].
  rewrite E1, E2. split; ring.
Qed.

Lemma shares_M (q : QLoad) : r1M l r q + r2M l r q == weightM q.
Proof.
  pose proof (span_m l r apart) as N. pose proof (span_mm l r apart) as N'.
  destruct q as [P a|w a b]; cbn [r1M r2M weightM]; field; span_side N N'.
Qed.

Lemma shares_MM (q : QLoad) : r1MM l r q + r2MM l r q == weightMM q.
Proof.
  pose proof (span_m l r apart) as N. pose proof (span_mm l r apart) as N'.
  destruct q as [P a|w a b]; cbn [r1MM r2MM weightMM]; field; span_side N N'.
Qed.

(** X7: on a simple beam with the supports at two different positions,
    for any list of point and uniform loads, wherever they are, computed
    without rounding [R1 + R2] is the sum of the loads: each point load's
    magnitude and each uniform load's rate times its length in m. *)
Theorem X7_equilibrium_any_loads :
  exists v1 v2,
    R1 s = Some v1 /\ R2 s = Some v2
    /\ v1 + v2 == sumQ (map weightM qs).
Proof.
  destruct reactions_exact as (v1 & v2 & E1 & E2 & V1 & V2).
  exists v1, v2. split; [exact E1|]. split; [exact E2|].
  rewrite V1, V2, <- sumQ_map_plus.
  apply sumQ_map_ext. intros q _. apply shares_M.
Qed.

(** X9: the reactions [calculateDiagrams] computes on the positions in mm
    are those of [calculateResults] when every load is a point load, and
    1000 times those when every load is a uniform load: it takes the length
    of a uniform load in mm, [calculateResults] in m. *)
Theorem X9_reactions_of_the_two_callbacks :
  exists v1 v2 d1 d2,
    R1 s = Some v1 /\ R2 s = Some v2
    /\ diagramReactions s = (Some d1, Some d2)
    /\ (forallb isPoint qs = true -> d1 == v1 /\ d2 == v2)
    /\ (forallb (fun q => negb (isPoint q)) qs = true ->
        d1 == 1000 * v1 /\ d2 == 1000 * v2).
Proof.
  destruct reactions_exact as (v1 & v2 & E1 & E2 & V1 & V2).
  destruct diagramReactions_exact as (d1 & d2 & Ed & D1 & D2).
  pose proof (span_m l r apart) as N. pose proof (span_mm l r apart) as N'.
  exists v1, v2, d1, d2.
  split; [exact E1|]. split; [exact E2|]. split; [exact Ed|]. split.
  - intros Hp. rewrite forallb_forall in Hp.
    rewrite V1, V2, D1, D2. split; apply sumQ_map_ext; intros q Hq;
      specialize (Hp q Hq); destruct q as [P a|w a b]; try discriminate Hp;
      cbn [r1M r2M r1MM r2MM]; field; span_side N N'.
  - intros Hu. rewrite forallb_forall in Hu.
    rewrite V1, V2, D1, D2, <- !sumQ_map_scale.
    split; apply sumQ_map_ext; intros q Hq;
      specialize (Hu q Hq); destruct q as [P a|w a b]; try discriminate Hu;
      cbn [r1M r2M r1MM r2MM]; field; span_side N N'.
Qed.

End SimpleBeamExact.

(** X8: a single point load over the left support is carried by [R1]
    alone, over the right support by [R2] alone, and halfway between the
    supports by both in equal parts (without rounding). *)
Theorem X8_point_load_shares (s : State (option Q)) (l r P a : Q) :
  beamType s = SimpleBeam ->
  leftSupport s = Some l ->
  rightSupport s = Some r ->
  loads s = map toLoad [QPoint P a] ->
  ~ r == l ->
  exists v1 v2,
    R1 s = Some v1 /\ R2 s = Some v2
    /\ (a == l -> v1 == P /\ v2 == 0)
    /\ (a == r -> v1 == 0 /\ v2 == P)
    /\ (a == (l + r) / 2 -> v1 == P / 2 /\ v2 == P / 2).
Proof.
  intros Hb Hl Hr Hq N.
  destruct (reactions_exact s l r [QPoint P a] Hb Hl Hr Hq N)
    as (v1 & v2 & E1 & E2 & V1 & V2).
  pose proof (span_m l r N) as N'.
  cbn [map r1M r2M] in V1, V2. rewrite sumQ_cons, sumQ_nil in V1, V2.
  exists v1, v2. split; [exact E1|]. split; [exact E2|].
  pose proof (span_mm l r N) as N''.
  split; [|split]; intros Ea; rewrite V1, V2, Ea; split; field;
    span_side N' N''.
Qed.

Lemma X8_point_load_shares_witness :
  exists v1 v2,
    R1 (beam SimpleBeam 1000 0 1000 [QPoint 1000 500]) = Some v1
    /\ R2 (beam SimpleBeam 1000 0 1000 [QPoint 1000 500]) = Some v2
    /\ v1 == 1000 / 2 /\ v2 == 1000 / 2.
Proof.
  destruct (X8_point_load_shares (beam SimpleBeam 1000 0 1000 [QPoint 1000 500])
              0 1000 1000 500 eq_refl eq_refl eq_refl eq_refl)
    as (v1 & v2 & E1 & E2 & _ & _ & Hmid).
  - discriminate.
  - exists v1, v2. split; [exact E1|]. split; [exact E2|].
    apply Hmid. reflexivity.
Defined.

Lemma X7_equilibrium_any_loads_witness :
  exists v1 v2,
    R1 (beam SimpleBeam 1000 100 900 [QPoint 1000 70; QUniform (-2) 200 1000])
    = Some v1
    /\ R2 (beam SimpleBeam 1000 100 900 [QPoint 1000 70; QUniform (-2) 200 1000])
       = Some v2
    /\ v1 + v2 == sumQ (map weightM [QPoint 1000 70; QUniform (-2) 200 1000]).
Proof.
  apply (X7_equilibrium_any_loads
           (beam SimpleBeam 1000 100 900 [QPoint 1000 70; QUniform (-2) 200 1000])
           100 900 [QPoint 1000 70; QUniform (-2) 200 1000]
           eq_refl eq_refl eq_refl eq_refl).
  discriminate.
Defined.

Lemma X9_reactions_of_the_two_callbacks_witness :
  exists v1 d1,
    R1 (beam SimpleBeam 1000 0 1000 [QUniform 2 0 1000]) = Some v1
    /\ fst (diagramReactions (beam SimpleBeam 1000 0 1000 [QUniform 2 0 1000]))
       = Some d1
    /\ d1 == 1000 * v1.
Proof.
  destruct (X9_reactions_of_the_two_callbacks
              (beam SimpleBeam 1000 0 1000 [QUniform 2 0 1000])
              0 1000 [QUniform 2 0 1000] eq_refl eq_refl eq_refl eq_refl)
    as (v1 & v2 & d1 & d2 & E1 & _ & Ed & _ & Hu).
  - discriminate.
  - exists v1, d1. split; [exact E1|]. split; [rewrite Ed; reflexivity|].
    apply Hu. reflexivity.
Defined.

(** *** The cantilever reaction *)

Lemma cantilever_fold_exact (qs : list QLoad) (a1 : Q) (a2 : option Q) :
  exists v,
    fst (fold_left cantileverReactionStep (map toLoad qs) (Some a1, a2)) = Some v
    /\ v == a1 + sumQ (map weightM qs).
Proof.
  revert a1. induction qs as [|q qs IH]; intros a1; cbn [map fold_left].
  - exists a1. split; [reflexivity|]. rewrite sumQ_nil. ring.
  - assert (Hstep : exists c,
               cantileverReactionStep (Some a1, a2) (toLoad q) = (Some (a1 + c), a2)
               /\ c == weightM q).
    { unfold cantileverReactionStep, endPosition_.
      destruct q as [P a|w a b];
        cbn [toLoad type magnitude startPosition endPosition].
      - exists P. split; reflexivity.
      - cbn [num_sub Exact.number lift2]. rewrite div_const by discriminate.
        exists (w * ((b - a) / inject_Z 1000)). split; [reflexivity|].
        change (inject_Z 1000) with 1000. cbn [weightM]. field. }
    destruct Hstep as (c & Ec & Vc). rewrite Ec.
    destruct (IH (a1 + c)) as (v & E & V).
    exists v. split; [exact E|]. rewrite sumQ_cons, V, Vc. ring.
Qed.

(** X10: on a cantilever, for any list of loads, [R1] is the sum of the
    loads (without rounding) and [R2] is 0. *)
Theorem X10_cantilever_reaction (s : State (option Q)) (qs : list QLoad) :
  beamType s = CantileverBeam ->
  loads s = map toLoad qs ->
  exists v, R1 s = Some v /\ v == sumQ (map weightM qs) /\ R2 s = Some 0.
Proof.
  intros Hb Hq.
  destruct (cantilever_fold_exact qs 0 (Some 0)) as (v & E & V).
  exists v. split; [|split].
  - unfold R1, reactions. rewrite Hb, Hq. exact E.
  - rewrite V. ring.
  - exact (cantilever_R2 s Hb).
Qed.

Lemma X10_cantilever_reaction_witness :
  exists v,
    R1 (beam CantileverBeam 1000 0 1000 [QPoint 1000 70; QUniform 2 200 1000])
    = Some v
    /\ v == sumQ (map weightM [QPoint 1000 70; QUniform 2 200 1000]).
Proof.
  destruct (X10_cantilever_reaction
              (beam CantileverBeam 1000 0 1000 [QPoint 1000 70; QUniform 2 200 1000])
              [QPoint 1000 70; QUniform 2 200 1000] eq_refl eq_refl)
    as (v & E & V & _).
  exists v. split; [exact E|exact V].
Defined.

(** *** The curves of a simple beam *)

Lemma Qle_bool_false (p q : Q) : Qle_bool p q = false -> q < p.
Proof.
  intros E. apply Qnot_le_lt. intros Hle.
  apply Qle_bool_iff in Hle. rewrite Hle in E. discriminate E.
Qed.

Lemma Qle_bool_true (p q : Q) : p <= q -> Qle_bool p q = true.
Proof. apply Qle_bool_iff. Qed.

Lemma Qle_bool_lt (p q : Q) : q < p -> Qle_bool p q = false.
Proof.
  intros Hlt. destruct (Qle_bool p q) eqn:E; [|reflexivity].
  apply Qle_bool_iff in E. exfalso. apply (Qlt_not_le _ _ Hlt), E.
Qed.

Lemma simpleMomentLoadStep_exact (x m : Q) (q : QLoad) :
  exists v,
    simpleMomentLoadStep (Some x) (Some m) (toLoad q) = Some v
    /\ v == m - momentCut x q.
Proof.
  unfold simpleMomentLoadStep, endPosition_.
  destruct q as [P a|w a b];
    cbn [toLoad type magnitude startPosition endPosition momentCut];
    cbn [num_ltb Exact.number test2];
    destruct (Qle_bool x a); cbn [negb].
  - exists m. split; [reflexivity|ring].
  - eexists. split; [reflexivity|reflexivity].
  - exists m. split; [reflexivity|ring].
  - cbn [num_sub num_mul num_add Math_min Exact.number lift2].
    rewrite div_const by discriminate.
    eexists. split; [reflexivity|].
    unfold minQ. change (inject_Z 2) with 2. reflexivity.
Qed.

Lemma simpleShearStep_exact (x sh : Q) (q : QLoad) :
  exists v,
    simpleShearStep (Some x) (Some sh) (toLoad q) = Some v
    /\ v == sh - shearCut x q.
Proof.
  unfold simpleShearStep, endPosition_.
  destruct q as [P a|w a b];
    cbn [toLoad type magnitude startPosition endPosition shearCut];
    cbn [num_leb Exact.number test2];
    destruct (Qle_bool a x).
  - eexists. split; [reflexivity|reflexivity].
  - exists sh. split; [reflexivity|ring].
  - eexists. split; [reflexivity|]. unfold minQ. reflexivity.
  - exists sh. split; [reflexivity|ring].
Qed.

(** The span of a uniform load that ends at or before [x]. *)
Lemma minQ_whole (x a b : Q) : b <= x -> minQ (x - a) (b - a) == b - a.
Proof.
  intros Hb. unfold minQ. destruct (Qle_bool (x - a) (b - a)) eqn:E.
  - apply Qle_bool_iff in E.
    assert (Hx : x <= b) by lra.
    assert (Exb : x == b) by (apply Qle_antisym; assumption).
    rewrite Exb. reflexivity.
  - reflexivity.
Qed.

Lemma momentCut_leftOf (l r : Q) (q : QLoad) :
  ~ r == l -> leftOf r q -> (r - l) * r1MM l r q == momentCut r q.
Proof.
  intros N Hq. pose proof (span_mm l r N) as N'.
  destruct q as [P a|w a b]; cbn [leftOf r1MM momentCut] in *.
  - destruct (Qle_bool r a) eqn:E; cbn [negb].
    + apply Qle_bool_iff in E.
      assert (Ea : a == r) by (apply Qle_antisym; assumption).
      rewrite Ea. field. exact N'.
    + field. exact N'.
  - destruct Hq as [Hab Hbr].
    destruct (Qle_bool r a) eqn:E; cbn [negb].
    + apply Qle_bool_iff in E.
      assert (Eb : b == a) by (apply Qle_antisym; lra).
      rewrite Eb. field. exact N'.
    + rewrite (minQ_whole r a b Hbr). field. exact N'.
Qed.

Lemma shearCut_leftOf (x : Q) (q : QLoad) :
  leftOf x q -> shearCut x q == weightMM q.
Proof.
  intros Hq. destruct q as [P a|w a b]; cbn [leftOf shearCut weightMM] in *.
  - rewrite (Qle_bool_true a x Hq). reflexivity.
  - destruct Hq as [Hab Hbx].
    rewrite (Qle_bool_true a x) by lra.
    rewrite (minQ_whole x a b Hbx). reflexivity.
Qed.

Lemma shearCut_beyond (x : Q) (q : QLoad) : beyond x q -> shearCut x q == 0.
Proof.
  intros Hq. destruct q as [P a|w a b]; cbn [beyond startOf shearCut] in *;
    rewrite (Qle_bool_lt a x Hq); reflexivity.
Qed.

Lemma momentCut_rightOf (x : Q) (q : QLoad) : rightOf x q -> momentCut x q == 0.
Proof.
  intros Hq. destruct q as [P a|w a b]; cbn [rightOf startOf momentCut] in *;
    rewrite (Qle_bool_true x a Hq); reflexivity.
Qed.

Section SimpleCurvesExact.

Variable s : State (option Q).
Variables l r : Q.
Variable qs : list QLoad.
Hypothesis simple : beamType s = SimpleBeam.
Hypothesis left_is : leftSupport s = Some l.
Hypothesis right_is : rightSupport s = Some r.
Hypothesis loads_are : loads s = map toLoad qs.
Hypothesis apart : ~ r == l.

(** X11: the moment curve of a simple beam, without rounding, is 0 at the
    right support when every load lies at or left of it, and 0 at the left
    support when the supports are in order and every load starts at or right
    of it. *)
Theorem X11_moment_at_the_supports :
  (Forall (leftOf r) qs ->
   exists m, simpleMoment s (Some r) = Some m /\ m == 0)
  /\ (l < r -> Forall (rightOf l) qs ->
      exists m, simpleMoment s (Some l) = Some m /\ m == 0).
Proof.
  destruct (diagramReactions_exact s l r qs simple left_is right_is loads_are apart)
    as (d1 & d2 & Ed & D1 & D2).
  split.
  - intros Hqs. unfold simpleMoment. rewrite Ed, left_is, right_is, loads_are.
    cbn [num_ltb num_sub num_mul Exact.number test2 lift2].
    rewrite (Qle_bool_true r r) by apply Qle_refl. cbn [negb].
    destruct (fold_single (simpleMomentLoadStep (Some r)) (momentCut r) qs
                (simpleMomentLoadStep_exact r) (d1 * (r - l)))
      as (m & Em & Vm).
    exists m. split; [exact Em|].
    rewrite Vm, D1.
    setoid_replace (sumQ (map (r1MM l r) qs) * (r - l))
      with ((r - l) * sumQ (map (r1MM l r) qs)) by ring.
    rewrite <- sumQ_map_scale.
    rewrite (sumQ_map_ext (fun q => (r - l) * r1MM l r q) (momentCut r) qs).
    + ring.
    + intros q Hq. apply momentCut_leftOf; [exact apart|].
      rewrite Forall_forall in Hqs. apply Hqs, Hq.
  - intros Hlr Hqs. unfold simpleMoment. rewrite Ed, left_is, right_is, loads_are.
    cbn [num_ltb num_sub num_mul Exact.number test2 lift2].
    rewrite (Qle_bool_true l r) by (apply Qlt_le_weak, Hlr). cbn [negb].
    destruct (fold_single (simpleMomentLoadStep (Some l)) (momentCut l) qs
                (simpleMomentLoadStep_exact l) (d1 * (l - l)))
      as (m & Em & Vm).
    exists m. split; [exact Em|].
    rewrite Vm, (sumQ_map_zero (momentCut l) qs).
    + ring.
    + intros q Hq. apply momentCut_rightOf.
      rewrite Forall_forall in Hqs. apply Hqs, Hq.
Qed.

(** X12: the shear curve of a simple beam, without rounding: left of the
    left support and of every load it is 0; from the left support on, left
    of the right support and of every load, it is [R1]; at and right of the
    right support, with every load at or left of the position, it is
    [R1 - R2] minus the loads, which is [-2 * R2]: [R2] is taken off, not
    added, so the curve does not come back to 0. *)
Theorem X12_shear_by_region (x : Q) :
  exists d1 d2,
    diagramReactions s = (Some d1, Some d2)
    /\ (x < l -> x < r -> Forall (beyond x) qs ->
        exists v, simpleShear s (Some x) = Some v /\ v == 0)
    /\ (l <= x -> x < r -> Forall (beyond x) qs ->
        exists v, simpleShear s (Some x) = Some v /\ v == d1)
    /\ (l <= x -> r <= x -> Forall (leftOf x) qs ->
        exists v, simpleShear s (Some x) = Some v /\ v == - (2 * d2)).
Proof.
  destruct (diagramReactions_exact s l r qs simple left_is right_is loads_are apart)
    as (d1 & d2 & Ed & D1 & D2).
  exists d1, d2. split; [exact Ed|].
  assert (Far : forall sh,
             Forall (beyond x) qs ->
             exists v, fold_left (simpleShearStep (Some x)) (map toLoad qs) (Some sh)
                       = Some v /\ v == sh).
  { intros sh Hqs.
    destruct (fold_single (simpleShearStep (Some x)) (shearCut x) qs
                (simpleShearStep_exact x) sh) as (v & Ev & Vv).
    exists v. split; [exact Ev|].
    rewrite Vv, (sumQ_map_zero (shearCut x) qs); [ring|].
    intros q Hq. apply shearCut_beyond.
    rewrite Forall_forall in Hqs. apply Hqs, Hq. }
  split; [|split].
  - intros Hxl Hxr Hqs. unfold simpleShear.
    rewrite Ed, left_is, right_is, loads_are.
    cbn [num_leb Exact.number test2].
    rewrite (Qle_bool_lt l x Hxl), (Qle_bool_lt r x Hxr).
    apply (Far 0 Hqs).
  - intros Hlx Hxr Hqs. unfold simpleShear.
    rewrite Ed, left_is, right_is, loads_are.
    cbn [num_leb num_add Exact.number test2 lift2 lit].
    rewrite (Qle_bool_true l x Hlx), (Qle_bool_lt r x Hxr).
    destruct (Far (inject_Z 0 + d1) Hqs) as (v & Ev & Vv).
    exists v. split; [exact Ev|]. rewrite Vv. change (inject_Z 0) with 0. ring.
  - intros Hlx Hrx Hqs. unfold simpleShear.
    rewrite Ed, left_is, right_is, loads_are.
    cbn [num_leb num_add num_sub Exact.number test2 lift2 lit].
    rewrite (Qle_bool_true l x Hlx), (Qle_bool_true r x Hrx).
    destruct (fold_single (simpleShearStep (Some x)) (shearCut x) qs
                (simpleShearStep_exact x) (inject_Z 0 + d1 - d2)) as (v & Ev & Vv).
    exists v. split; [exact Ev|].
    rewrite Vv, (sumQ_map_ext (shearCut x) weightMM qs).
    + rewrite <- (sumQ_map_ext (fun q => r1MM l r q + r2MM l r q) weightMM qs)
        by (intros q _; apply (shares_MM l r apart)).
      rewrite sumQ_map_plus, <- D1, <- D2. change (inject_Z 0) with 0. ring.
    + intros q Hq. apply shearCut_leftOf.
      rewrite Forall_forall in Hqs. apply Hqs, Hq.
Qed.

End SimpleCurvesExact.

Lemma X11_moment_at_the_supports_witness :
  (exists m,
      simpleMoment (beam SimpleBeam 1000 0 1000 [QPoint 1000 500; QUniform 2 100 400])
        (Some 1000) = Some m /\ m == 0)
  /\ (exists m,
         simpleMoment (beam SimpleBeam 1000 0 1000 [QPoint 1000 500; QUniform 2 100 400])
           (Some 0) = Some m /\ m == 0).
Proof.
  pose proof (X11_moment_at_the_supports
                (beam SimpleBeam 1000 0 1000 [QPoint 1000 500; QUniform 2 100 400])
                0 1000 [QPoint 1000 500; QUniform 2 100 400]
                eq_refl eq_refl eq_refl eq_refl) as [Hr Hl].
  - discriminate.
  - split.
    + apply Hr. repeat constructor; cbn; lra.
    + apply Hl; [reflexivity|]. repeat constructor; unfold rightOf; cbn; lra.
Defined.

Lemma X12_shear_by_region_witness :
  exists d1 d2,
    diagramReactions (beam SimpleBeam 1200 100 1000 [QPoint 1000 500])
    = (Some d1, Some d2)
    /\ (exists v, simpleShear (beam SimpleBeam 1200 100 1000 [QPoint 1000 500])
                    (Some 50) = Some v /\ v == 0)
    /\ (exists v, simpleShear (beam SimpleBeam 1200 100 1000 [QPoint 1000 500])
                    (Some 300) = Some v /\ v == d1)
    /\ (exists v, simpleShear (beam SimpleBeam 1200 100 1000 [QPoint 1000 500])
                    (Some 1100) = Some v /\ v == - (2 * d2)).
Proof.
  assert (N : ~ 1000 == 100) by discriminate.
  destruct (X12_shear_by_region
              (beam SimpleBeam 1200 100 1000 [QPoint 1000 500])
              100 1000 [QPoint 1000 500] eq_refl eq_refl eq_refl eq_refl N 50)
    as (d1 & d2 & Ed & H0 & _ & _).
  destruct (X12_shear_by_region
              (beam SimpleBeam 1200 100 1000 [QPoint 1000 500])
              100 1000 [QPoint 1000 500] eq_refl eq_refl eq_refl eq_refl N 300)
    as (d1' & d2' & Ed' & _ & H1 & _).
  destruct (X12_shear_by_region
              (beam SimpleBeam 1200 100 1000 [QPoint 1000 500])
              100 1000 [QPoint 1000 500] eq_refl eq_refl eq_refl eq_refl N 1100)
    as (d1'' & d2'' & Ed'' & _ & _ & H2).
  rewrite Ed in Ed', Ed''. injection Ed' as <- <-. injection Ed'' as <- <-.
  exists d1, d2. split; [exact Ed|]. split; [|split].
  - apply H0; [reflexivity|reflexivity|].
    repeat constructor; unfold beyond; cbn; lra.
  - apply H1; [discriminate|reflexivity|].
    repeat constructor; unfold beyond; cbn; lra.
  - apply H2; [discriminate|discriminate|].
    repeat constructor; cbn; lra.
Defined.

(** X13: for a single point load [P >= 0] between the supports of a simple
    beam, the maximum bending moment is [P*(r-a)*(a-l)/(r-l)] with the
    positions in m (without rounding), and the moment curve at the load is
    1000 times that: the curve is in N.mm. *)
Theorem X13_single_point_load_moment (s : State (option Q)) (l r P a : Q) :
  beamType s = SimpleBeam ->
  leftSupport s = Some l ->
  rightSupport s = Some r ->
  loads s = map toLoad [QPoint P a] ->
  l < r -> 0 <= P -> l <= a -> a <= r ->
  exists m d,
    maxBendingMoment_ s = Some m
    /\ m == P * (r - a) * (a - l) / (r - l) / 1000
    /\ simpleMoment s (Some a) = Some d
    /\ d == 1000 * m.
Proof.
  intros Hb Hl Hr Hq Hlr HP Hla Har.
  assert (N : ~ r == l).
  { intros E. rewrite E in Hlr. apply (Qlt_irrefl l), Hlr. }
  pose proof (span_m l r N) as Nm. pose proof (span_mm l r N) as Nmm.
  destruct (reactions_exact s l r [QPoint P a] Hb Hl Hr Hq N)
    as (v1 & v2 & E1 & E2 & V1 & V2).
  destruct (diagramReactions_exact s l r [QPoint P a] Hb Hl Hr Hq N)
    as (d1 & d2 & Ed & D1 & D2).
  cbn [map r1M r1MM] in V1, D1. rewrite sumQ_cons, sumQ_nil in V1, D1.
  set (c := v1 * (a / 1000 - l / 1000)).
  assert (Vc : c == P * (r - a) * (a - l) / (r - l) / 1000).
  { unfold c. rewrite V1. field. span_side Nm Nmm. }
  assert (Hc : 0 <= c).
  { rewrite Vc.
    apply Qle_shift_div_l; [reflexivity|]. rewrite Qmult_0_l.
    apply Qle_shift_div_l; [lra|]. rewrite Qmult_0_l.
    apply Qmult_le_0_compat; [apply Qmult_le_0_compat|]; lra. }
  exists c, (d1 * (a - l)). split; [|split; [|split]].
  - unfold maxBendingMoment_. rewrite Hb, Hq. cbn [map fold_left].
    unfold simpleMomentStep. cbn [toLoad type]. unfold momentAtLoad.
    cbn [toLoad startPosition]. unfold leftSupportM. rewrite E1, Hl.
    rewrite !div_const by discriminate. change (inject_Z 1000) with 1000.
    cbn [num_sub num_mul Math_max Exact.number lift2 lit]. fold c.
    change (inject_Z 0) with 0. rewrite (Qle_bool_true 0 c Hc). reflexivity.
  - exact Vc.
  - unfold simpleMoment. rewrite Ed, Hl, Hr, Hq.
    cbn [num_ltb num_sub num_mul Exact.number test2 lift2].
    rewrite (Qle_bool_true a r Har). cbn [negb map fold_left].
    unfold simpleMomentLoadStep. cbn [toLoad type startPosition].
    cbn [num_ltb Exact.number test2].
    rewrite (Qle_bool_true a a) by apply Qle_refl. reflexivity.
  - rewrite Vc, D1. field. exact Nmm.
Qed.

Lemma X13_single_point_load_moment_witness :
  exists m d,
    maxBendingMoment_ (beam SimpleBeam 1000 0 1000 [QPoint 1000 500]) = Some m
    /\ m == 1000 * (1000 - 500) * (500 - 0) / (1000 - 0) / 1000
    /\ simpleMoment (beam SimpleBeam 1000 0 1000 [QPoint 1000 500]) (Some 500)
       = Some d
    /\ d == 1000 * m.
Proof.
  apply (X13_single_point_load_moment
           (beam SimpleBeam 1000 0 1000 [QPoint 1000 500]) 0 1000 1000 500
           eq_refl eq_refl eq_refl eq_refl).
  - reflexivity.
  - discriminate.
  - discriminate.
  - discriminate.
Defined.

(** *** Section properties *)

Lemma pow_Some (p : Q) (n : Z) : (0 <= n)%Z -> Exact.pow (Some p) n = Some (p ^ n).
Proof.
  intros Hn. unfold Exact.pow.
  assert (E : (n <? 0)%Z = false) by (apply Z.ltb_ge; exact Hn).
  rewrite E, andb_false_r. reflexivity.
Qed.

Lemma div_inject (p : Q) (z : Z) :
  z <> 0%Z -> (Some p / Some (inject_Z z))%js = Some (p / inject_Z z).
Proof. exact (div_const p z). Qed.

Ltac exact_eval :=
  repeat first
    [ rewrite div_const by discriminate
    | rewrite div_inject by discriminate
    | rewrite pow_Some by discriminate
    | progress cbn [num_add num_sub num_mul Math_pow Math_PI Exact.number
                     lift2 lit] ].

(** X14: for a rectangular section of width [w] and height [h] (mm, [h]
    not 0), without rounding the area is [w*h] in m^2, the moment of inertia
    [w*h^3/12] in m^4 and the section modulus [w*h^2/6] in m^3. *)
Theorem X14_rectangular_section (s : State (option Q)) (w h : Q) :
  beamCrossSection s = Rectangular ->
  width s = Some w ->
  height s = Some h ->
  ~ h == 0 ->
  exists A I Z,
    area s = Some A /\ momentOfInertia_ s = Some I /\ sectionModulus_ s = Some Z
    /\ A == (w / 1000) * (h / 1000)
    /\ I == (w / 1000) * (h / 1000) ^ 3 / 12
    /\ Z == (w / 1000) * (h / 1000) ^ 2 / 6.
Proof.
  intros Hc Hw Hh N.
  assert (N2 : ~ h / inject_Z 1000 / inject_Z 2 == 0).
  { change (inject_Z 1000) with 1000. change (inject_Z 2) with 2.
    intros E. apply N.
    setoid_replace h with (h / 1000 / 2 * 2000) by field.
    rewrite E. ring. }
  assert (EI : momentOfInertia_ s
               = Some ((w / inject_Z 1000) * (h / inject_Z 1000) ^ 3 / inject_Z 12)).
  { unfold momentOfInertia_, widthM, heightM. rewrite Hc, Hw, Hh.
    exact_eval. reflexivity. }
  eexists. eexists. eexists. split; [|split; [|split]].
  - unfold area, widthM, heightM. rewrite Hc, Hw, Hh. exact_eval. reflexivity.
  - exact EI.
  - unfold sectionModulus_, heightM. rewrite Hc, EI, Hh. exact_eval.
    change (@num_div (option Q) Exact.number) with Exact.div.
    rewrite (div_exact _ _ N2). reflexivity.
  - change (inject_Z 1000) with 1000. change (inject_Z 12) with 12.
    change (inject_Z 2) with 2.
    split; [reflexivity|]. split; [reflexivity|]. field. exact N.
Qed.

Lemma X14_rectangular_section_witness :
  exists A I Z,
    area (sectionOf Rectangular 100 200 100 10 6 100) = Some A
    /\ momentOfInertia_ (sectionOf Rectangular 100 200 100 10 6 100) = Some I
    /\ sectionModulus_ (sectionOf Rectangular 100 200 100 10 6 100) = Some Z
    /\ A == (100 / 1000) * (200 / 1000)
    /\ I == (100 / 1000) * (200 / 1000) ^ 3 / 12
    /\ Z == (100 / 1000) * (200 / 1000) ^ 2 / 6.
Proof.
  apply (X14_rectangular_section (sectionOf Rectangular 100 200 100 10 6 100)
           100 200 eq_refl eq_refl eq_refl).
  discriminate.
Defined.

(** X15: with flange width [bf], flange thickness [tf], web thickness [tw]
    and height [h] (entered in mm, used in m), without rounding the
    C-channel moment of inertia is [(bf*h^3 - (bf-tw)*(h-2tf)^3)/12], the
    moment of inertia of two flanges and a web about the mid-height axis;
    the I-beam one is larger by two more flanges,
    [2*(bf*tf^3/12 + bf*tf*((h-tf)/2)^2)]; the two areas are the same. *)
Theorem X15_flanged_sections (s : State (option Q)) (bf tf tw h : Q) :
  flangeWidth s = Some bf ->
  flangeThickness s = Some tf ->
  webThickness s = Some tw ->
  height s = Some h ->
  exists Ic Ii A,
    momentOfInertia_ (setBeamCrossSection s CChannel) = Some Ic
    /\ momentOfInertia_ (setBeamCrossSection s IBeam) = Some Ii
    /\ area (setBeamCrossSection s CChannel) = Some A
    /\ area (setBeamCrossSection s IBeam) = Some A
    /\ Ic == ((bf / 1000) * (h / 1000) ^ 3
              - (bf / 1000 - tw / 1000) * (h / 1000 - 2 * (tf / 1000)) ^ 3) / 12
    /\ Ii == Ic + 2 * ((bf / 1000) * (tf / 1000) ^ 3 / 12
                       + (bf / 1000) * (tf / 1000)
                         * ((h / 1000 - tf / 1000) / 2) ^ 2)
    /\ A == 2 * (bf / 1000) * (tf / 1000)
            + (h / 1000 - 2 * (tf / 1000)) * (tw / 1000).
Proof.
  intros Hbf Htf Htw Hh.
  eexists. eexists. eexists. split; [|split; [|split; [|split]]].
  - unfold momentOfInertia_, I_flange_c, I_web_c,
      flangeWidthM, flangeThicknessM, webThicknessM, heightM.
    cbn [beamCrossSection setBeamCrossSection flangeWidth flangeThickness
         webThickness height].
    rewrite Hbf, Htf, Htw, Hh. exact_eval. reflexivity.
  - unfold momentOfInertia_, I_flange, I_web,
      flangeWidthM, flangeThicknessM, webThicknessM, heightM.
    cbn [beamCrossSection setBeamCrossSection flangeWidth flangeThickness
         webThickness height].
    rewrite Hbf, Htf, Htw, Hh. exact_eval. reflexivity.
  - unfold area, flangeWidthM, flangeThicknessM, webThicknessM, heightM.
    cbn [beamCrossSection setBeamCrossSection flangeWidth flangeThickness
         webThickness height].
    rewrite Hbf, Htf, Htw, Hh. exact_eval. reflexivity.
  - unfold area, flangeWidthM, flangeThicknessM, webThicknessM, heightM.
    cbn [beamCrossSection setBeamCrossSection flangeWidth flangeThickness
         webThickness height].
    rewrite Hbf, Htf, Htw, Hh. exact_eval. reflexivity.
  - change (inject_Z 1000) with 1000. change (inject_Z 12) with 12.
    change (inject_Z 2) with 2. change (inject_Z 6) with 6.
    split; [field|]. split; [field|reflexivity].
Qed.

(** X16: for a circular section of diameter [d] (mm, not 0), without
    rounding and with [pi] the value of [Math.PI], the area is
    [pi*(d/2)^2], the moment of inertia [pi*d^4/64] and the section modulus
    [pi*d^3/32], with [d] in m. *)
Theorem X16_circular_section (s : State (option Q)) (d : Q) :
  beamCrossSection s = Circular ->
  diameter s = Some d ->
  ~ d == 0 ->
  exists pi A I Z,
    Math_PI = Some pi
    /\ area s = Some A /\ momentOfInertia_ s = Some I /\ sectionModulus_ s = Some Z
    /\ A == pi * (d / 1000) ^ 2 / 4
    /\ I == pi * (d / 1000) ^ 4 / 64
    /\ Z == pi * (d / 1000) ^ 3 / 32.
Proof.
  intros Hc Hd N.
  assert (N2 : ~ d / inject_Z 1000 / inject_Z 2 == 0).
  { change (inject_Z 1000) with 1000. change (inject_Z 2) with 2.
    intros E. apply N.
    setoid_replace d with (d / 1000 / 2 * 2000) by field.
    rewrite E. ring. }
  set (pi := 7074237752028440 # 2251799813685248).
  assert (EI : momentOfInertia_ s
               = Some (pi * (d / inject_Z 1000) ^ 4 / inject_Z 64)).
  { unfold momentOfInertia_, diameterM. rewrite Hc, Hd. exact_eval. reflexivity. }
  exists pi. eexists. eexists. eexists.
  split; [reflexivity|]. split; [|split; [|split]].
  - unfold area, diameterM. rewrite Hc, Hd. exact_eval. reflexivity.
  - exact EI.
  - unfold sectionModulus_, diameterM. rewrite Hc, EI, Hd. exact_eval.
    change (@num_div (option Q) Exact.number) with Exact.div.
    rewrite (div_exact _ _ N2). reflexivity.
  - change (inject_Z 1000) with 1000. change (inject_Z 64) with 64.
    change (inject_Z 2) with 2. fold pi. clearbody pi.
    split; [field|]. split; [reflexivity|]. field. exact N.
Qed.

Lemma X15_flanged_sections_witness :
  exists Ic Ii,
    momentOfInertia_ (sectionOf CChannel 100 200 100 10 6 100) = Some Ic
    /\ momentOfInertia_ (sectionOf IBeam 100 200 100 10 6 100) = Some Ii
    /\ Ii == Ic + 2 * ((100 / 1000) * (10 / 1000) ^ 3 / 12
                       + (100 / 1000) * (10 / 1000)
                         * ((200 / 1000 - 10 / 1000) / 2) ^ 2).
Proof.
  destruct (X15_flanged_sections (sectionOf Rectangular 100 200 100 10 6 100)
              100 10 6 200 eq_refl eq_refl eq_refl eq_refl)
    as (Ic & Ii & A & Ec & Ei & _ & _ & _ & Vi & _).
  exists Ic, Ii. split; [exact Ec|]. split; [exact Ei|exact Vi].
Defined.

Lemma X16_circular_section_witness :
  exists pi Z,
    Math_PI = Some pi
    /\ sectionModulus_ (sectionOf Circular 100 200 100 10 6 100) = Some Z
    /\ Z == pi * (100 / 1000) ^ 3 / 32.
Proof.
  destruct (X16_circular_section (sectionOf Circular 100 200 100 10 6 100) 100
              eq_refl eq_refl)
    as (pi & A & I & Z & Ep & _ & _ & Ez & _ & _ & Vz).
  - discriminate.
  - exists pi, Z. split; [exact Ep|]. split; [exact Ez|exact Vz].
Defined.

(** *** The drawing of the beam *)









End ExactFacts.

(** ** What the results do not depend on *)

Section Independence.

Context {num : Type} `{JSNumber num}.

Local Open Scope js_scope.

(** X19: choosing another material changes the safety factor and nothing
    else: the beam weight (it uses [beamDensity], not the density of the
    material) and the seven other results stay as they are. *)
Theorem X19_material_only_moves_the_safety_factor
    (s : State num) (m : MaterialName) :
  exists w r r',
    calculateResults s = Ok (w, r)
    /\ calculateResults (setMaterial s m) = Ok (w, r')
    /\ maxShearForce r' = maxShearForce r
    /\ maxBendingMoment r' = maxBendingMoment r
    /\ maxNormalStress r' = maxNormalStress r
    /\ maxShearStress r' = maxShearStress r
    /\ centerOfGravity r' = centerOfGravity r
    /\ momentOfInertia r' = momentOfInertia r
    /\ sectionModulus r' = sectionModulus r.
Proof.
  eexists. eexists. eexists.
  split; [apply calculateResults_returns|].
  split; [rewrite calculateResults_returns; reflexivity|].
  repeat split.
Qed.

(** X20: the weight of the beam is shown but never loaded on it: with
    another [beamDensity] every result is the same. The weight is the area
    of the section times the length times [beamDensity] times 9.81, rounded
    to 2 digits. *)
Theorem X20_self_weight_is_not_a_load (s : State num) (d : num) :
  exists w w' r,
    calculateResults s = Ok (w, r)
    /\ calculateResults (setBeamDensity s d) = Ok (w', r)
    /\ w = Number_toFixed (area s * beamLengthM s * beamDensity s * decimal 981 2) 2
    /\ w' = Number_toFixed (area s * beamLengthM s * d * decimal 981 2) 2.
Proof.
  eexists. eexists. eexists.
  split; [apply calculateResults_returns|].
  split; [rewrite calculateResults_returns; reflexivity|].
  unfold beamWeightN, beamVolume, area.
  cbn [beamCrossSection beamDensity setBeamDensity].
  destruct (beamCrossSection s); split; reflexivity.
Qed.

(** X21: the reactions, shear and moment depend on the beam type, the
    length, the supports and the loads only: two states that agree on these
    have the same curves, the same maximum shear force and bending moment and
    the same centre of gravity, whatever their sections and materials. *)
Theorem X21_load_analysis_ignores_the_section (s s' : State num) :
  beamType s' = beamType s ->
  beamLength s' = beamLength s ->
  leftSupport s' = leftSupport s ->
  rightSupport s' = rightSupport s ->
  loads s' = loads s ->
  calculateDiagrams s' = calculateDiagrams s
  /\ exists w w' r r',
       calculateResults s = Ok (w, r)
       /\ calculateResults s' = Ok (w', r')
       /\ maxShearForce r' = maxShearForce r
       /\ maxBendingMoment r' = maxBendingMoment r
       /\ centerOfGravity r' = centerOfGravity r.
Proof.
  intros Et EL El Er Eq.
  destruct s, s'. cbn [beamType beamLength leftSupport rightSupport loads] in *.
  subst. split.
  - rewrite !calculateDiagrams_returns. reflexivity.
  - eexists. eexists. eexists. eexists.
    split; [apply calculateResults_returns|].
    split; [apply calculateResults_returns|].
    repeat split.
Qed.

End Independence.

(** ** The drawing of a beam of length 0 *)

Module ZeroLength.

Import Binary64 F Binary64Facts.
Open Scope float_scope.

Lemma mul_not_finite_l (a b : float) :
  not_finite a = true -> finite_nonzero b = true -> not_finite (a * b) = true.
Proof.
  unfold not_finite, finite_nonzero. rewrite mul_spec.
  destruct (Prim2SF a) as [sa|sa| |sa ma ea]; intros Ea; try discriminate Ea;
    destruct (Prim2SF b); intros Eb; try discriminate Eb; reflexivity.
Qed.

Lemma add_not_finite_l (a b : float) :
  not_finite a = true -> not_finite (a + b) = true.
Proof.
  unfold not_finite. rewrite add_spec.
  destruct (Prim2SF a) as [sa|sa| |sa ma ea]; intros E; try discriminate E;
    destruct (Prim2SF b) as [sb|sb| |sb mb eb]; try reflexivity;
    destruct sa, sb; reflexivity.
Qed.

Lemma div_by_zero (a z : float) :
  zero_value z = true -> not_finite (a / z) = true.
Proof.
  intros Z. apply div_zero_or_nan. revert Z. unfold zero_value, zero_or_nan.
  destruct (Prim2SF z); intros E; try discriminate E; reflexivity.
Qed.

Lemma coordinate_not_finite (v L : float) :
  zero_value L = true ->
  not_finite (margin + (v / L) * (svgWidth - lit 2 * margin))%js = true.
Proof.
  intros Z. apply add_not_finite_r. apply mul_not_finite_l.
  - apply div_by_zero, Z.
  - vm_compute. reflexivity.
Qed.

(** X22: when the beam length is 0, no coordinate of the drawing is a finite
    number: the supports, the start of every load and every arrow are drawn
    at NaN or at an infinity. *)
Theorem X22_zero_length_drawing (s : State float) :
  zero_value (beamLength s) = true ->
  not_finite (leftSupportX s) = true
  /\ not_finite (rightSupportX s) = true
  /\ forall load,
       not_finite (loadStartX s load) = true
       /\ Forall (fun x => not_finite x = true) (arrowXs s load).
Proof.
  intros Z. split; [|split].
  - apply coordinate_not_finite, Z.
  - apply coordinate_not_finite, Z.
  - intros load.
    assert (S : not_finite (loadStartX s load) = true)
      by (apply coordinate_not_finite, Z).
    split; [exact S|].
    unfold arrowXs. destruct (type load).
    + constructor; [exact S|constructor].
    + apply Forall_forall. intros x Hx. apply in_map_iff in Hx.
      destruct Hx as (i & <- & _). apply add_not_finite_l, S.
Qed.

Lemma X22_zero_length_drawing_witness :
  not_finite (leftSupportX zeroLength) = true
  /\ not_finite (loadStartX zeroLength (pointLoad 1000 500)) = true.
Proof.
  destruct (X22_zero_length_drawing zeroLength eq_refl) as (A & _ & B).
  split; [exact A|]. apply (B (pointLoad 1000 500)).
Defined.

End ZeroLength.

Module IndependenceInstances.

Import Binary64 F.

Lemma X21_load_analysis_ignores_the_section_witness :
  calculateDiagrams (setBeamCrossSection (setMaterial initialState Custom) Circular)
  = calculateDiagrams initialState.
Proof.
  apply (X21_load_analysis_ignores_the_section
           initialState
           (setBeamCrossSection (setMaterial initialState Custom) Circular)
           eq_refl eq_refl eq_refl eq_refl eq_refl).
Defined.

End IndependenceInstances.
